(** * Aquarius events monitor: checkpoint store, block-range scanner,
      event dispatcher and proof validator.

    A shallow embedding of [aquarius/events/proof_checker.py] and
    [aquarius/events/events_monitor.py].  Calls into Elasticsearch, web3 and
    the event processors are parameters of the embedding; the control flow,
    the exception handling and the arithmetic of the two files are
    transcribed function by function. *)

From Stdlib Require Import ZArith List String Ascii Lia.
From stdpp Require Import base option list list_numbers strings pretty gmap sets.

Local Open Scope string_scope.
Local Open Scope Z_scope.

(** ** Logging *)

Inductive log_level := DEBUG | INFO | ERROR | EXCEPTION.

#[global] Instance log_level_eq_dec : EqDecision log_level.
Proof. solve_decision. Defined.

Record log_entry := Log { level : log_level; message : string }.

(** ** proof_checker.py *)

Module ProofChecker.

Section check_metadata_proofs.

(** Python values found in the decoded allow-list and in the [validator]
    argument of a proof event. *)
Context {pyval : Type}.

(** [set(json.loads(text))]: the JSON decoder followed by the built-in
    [set] constructor.  [inl msg] is the exception either of them raised. *)
Variable loads_set : string -> string + list pyval.

(** [web3.toChecksumAddress]; [None] when it raises. *)
Variable toChecksumAddress : pyval -> option string.

(** A decoded [MetadataValidated] event: [metadata_proof.args.validator]. *)
Record MetadataProof := { validator : pyval }.

(** [{web3.toChecksumAddress(v) for v in vals}]: the comprehension raises
    as soon as one element does. *)
Definition checksum_set (vals : list pyval) : option (gset string) :=
  list_to_set <$> mapM toChecksumAddress vals.

(** Python truthiness of a list. *)
Definition truthy_list {A} (l : list A) : bool :=
  match l with [] => false | _ :: _ => true end.

Definition parse_error (e : string) : log_entry :=
  Log ERROR ("Reading list of allowed validators failed: " ++ e ++ ".").

Definition extraction_error : log_entry :=
  Log INFO "Exception retrieving proof addresses or validation proofs.".

(** [allowed_validators] is [os.getenv("ALLOWED_VALIDATORS")]. *)
Definition check_metadata_proofs
    (allowed_validators : option string)
    (metadata_proofs : list MetadataProof) : bool * list log_entry :=
  match allowed_validators with
  | None => (true, [])
  | Some text =>
    if bool_decide (text = "") then (true, [])
    else
      match loads_set text with
      | inl e => (false, [parse_error e])
      | inr allowed =>
        if negb (truthy_list allowed) then (true, [])
        else
          match checksum_set (validator <$> metadata_proofs) with
          | None => (false, [extraction_error])
          | Some proof_addresses =>
            match checksum_set allowed with
            | None => (false, [extraction_error])
            | Some allowed_addresses =>
              (truthy_list (elements (proof_addresses ∩ allowed_addresses)), [])
            end
          end
      end
  end.

End check_metadata_proofs.

End ProofChecker.

(** ** events_monitor.py *)

Module EventsMonitor.

(** *** Exceptions and Python values *)

(** The exception classes the monitor tells apart.  [NotFoundError],
    [RequestError], [ConnectionError] and [TransportError] are subclasses of
    [elasticsearch.exceptions.ElasticsearchException]; every constructor is a
    subclass of [Exception]. *)
Inductive exn :=
| NotFoundError
| RequestError
| ConnectionError
| TransportError
| IndexError
| ValueError
| UnboundLocalError
| TransactionNotFound
| OtherError (what : string).

Definition is_ElasticsearchException (e : exn) : bool :=
  match e with
  | NotFoundError | RequestError | ConnectionError | TransportError => true
  | _ => false
  end.

Definition is_NotFoundError (e : exn) : bool :=
  match e with NotFoundError => true | _ => false end.

Definition is_RequestError (e : exn) : bool :=
  match e with RequestError => true | _ => false end.

Definition is_Exception (e : exn) : bool := true.

Definition exn_str (e : exn) : string :=
  match e with
  | NotFoundError => "NotFoundError"
  | RequestError => "RequestError"
  | ConnectionError => "ConnectionError"
  | TransportError => "TransportError"
  | IndexError => "tuple index out of range"
  | ValueError => "ValueError"
  | UnboundLocalError => "local variable referenced before assignment"
  | TransactionNotFound => "TransactionNotFound"
  | OtherError what => what
  end.

(** What [web3.eth.block_number] may evaluate to. *)
Inductive pyobj :=
| PyNone
| PyBool (b : bool)
| PyInt (n : Z)
| PyStr (s : string).

(** [bool(x)] *)
Definition truthy (x : pyobj) : bool :=
  match x with
  | PyNone => false
  | PyBool b => b
  | PyInt n => negb (Z.eqb n 0)
  | PyStr s => negb (bool_decide (s = ""))
  end.

(** [isinstance(x, int)], with the integer it denotes; [bool] is a subclass
    of [int]. *)
Definition as_int (x : pyobj) : option Z :=
  match x with
  | PyInt n => Some n
  | PyBool b => Some (if b then 1 else 0)
  | _ => None
  end.

(** *** Event kinds: [aquarius.events.constants.EventTypes] *)

Inductive EventType :=
| EVENT_METADATA_CREATED
| EVENT_METADATA_UPDATED
| EVENT_METADATA_STATE
| EVENT_ORDER_STARTED
| EVENT_TOKEN_URI_UPDATE
| EVENT_EXCHANGE_CREATED
| EVENT_EXCHANGE_RATE_CHANGED
| EVENT_DISPENSER_CREATED.

#[global] Instance EventType_eq_dec : EqDecision EventType.
Proof. solve_decision. Defined.

Definition get_all_values : list EventType :=
  [EVENT_METADATA_CREATED; EVENT_METADATA_UPDATED; EVENT_METADATA_STATE;
   EVENT_ORDER_STARTED; EVENT_TOKEN_URI_UPDATE; EVENT_EXCHANGE_CREATED;
   EVENT_EXCHANGE_RATE_CHANGED; EVENT_DISPENSER_CREATED].

(** The text whose keccak hash is the first topic of the event. *)
Definition hash_text (event_name : EventType) : string :=
  match event_name with
  | EVENT_METADATA_CREATED =>
      "MetadataCreated(address,uint8,string,bytes,bytes,bytes32,uint256,uint256)"
  | EVENT_METADATA_UPDATED =>
      "MetadataUpdated(address,uint8,string,bytes,bytes,bytes32,uint256,uint256)"
  | EVENT_METADATA_STATE => "MetadataState(address,uint8,uint256,uint256)"
  | EVENT_TOKEN_URI_UPDATE => "TokenURIUpdate(address,string,uint256,uint256,uint256)"
  | EVENT_EXCHANGE_CREATED => "ExchangeCreated(bytes32,address,address,address,uint256)"
  | EVENT_EXCHANGE_RATE_CHANGED => "ExchangeRateChanged(bytes32,address,uint256)"
  | EVENT_DISPENSER_CREATED => "DispenserCreated(address,address,uint256,uint256,address)"
  | EVENT_ORDER_STARTED =>
      "OrderStarted(address,address,uint256,uint256,uint256,address,uint256)"
  end.

(** *** Ledger and store data *)

(** A raw log entry as returned by [web3.eth.get_logs]. *)
Record RawLog := {
  address : string;
  transactionHash : string;
  blockNumber : Z
}.

Record Receipt := {
  receipt_tx : string;
  receipt_from : string;
  receipt_to : string
}.

(** The [filter_params] dictionary at the moment of a [get_logs] call. *)
Record FilterParams := {
  topics : list string;
  fromBlock : Z;
  toBlock : Z
}.

(** A document of the asset index. *)
Record Asset := {
  id : string;
  chainId : Z
}.

(** What one Elasticsearch call meets: a healthy cluster, an unreachable
    one, or an exception raised by the client. *)
Inductive outcome :=
| Healthy
| Unreachable
| Fails (e : exn).

(** The processor classes of the regular metadata events. *)
Inductive Processor :=
| MetadataCreatedProcessor
| MetadataUpdatedProcessor
| MetadataStateProcessor.

(** *** External collaborators *)

Record Env := {
  chain_id : Z;
  (** [get_defined_block(chain_id)] *)
  defined_block : Z;
  (** [get_metadata_start_block()] *)
  start_block : Z;
  (** [BlockProcessingClass.blockchain_chunk_size] *)
  blockchain_chunk_size : Z;
  (** [EVENTS_CLEAN_START] *)
  clean_start : bool;
  (** [OCN_EVENTS_MONITOR_QUITE_TIME] read as an integer, when it is one *)
  quiet_time : option Z;
  (** the fate of the n-th call made to Elasticsearch *)
  es_outcome : nat -> outcome;
  (** [web3.eth.block_number] *)
  block_number : exn + pyobj;
  keccak : string -> string;
  get_logs : FilterParams -> exn + list RawLog;
  toChecksumAddress : string -> exn + string;
  get_transaction_receipt : string -> exn + Receipt;
  (** [contract.events[kind]().processReceipt(receipt, errors=DISCARD)]: the
      identifiers of the events of that kind decoded from the receipt *)
  processReceipt : EventType -> string -> Receipt -> list string;
  (** [contract.events.MetadataValidated().processReceipt(receipt, errors=DISCARD)]:
      the validators of the proofs *)
  processReceipt_proofs : string -> Receipt -> exn + list string;
  (** construction of the processor of a regular kind followed by
      [process()]; arguments: processor class, decoded event, contract,
      sender, proofs *)
  regular_process : Processor -> string -> string -> string -> list string -> exn + unit;
  (** [get_fre(web3, chain_id)] and [get_dispenser(web3, chain_id)] *)
  get_fre : exn + string;
  get_dispenser : exn + string;
  (** [fre.events.ExchangeRateChanged().processReceipt(receipt)]: exchange ids *)
  fre_processReceipt : string -> Receipt -> exn + list string;
  (** [fre.caller.getExchange(exchange_id)[1]] *)
  fre_getExchange : string -> string -> exn + string;
  (** [dispenser.events.DispenserCreated().processReceipt(receipt)]:
      datatoken addresses *)
  dispenser_processReceipt : string -> Receipt -> exn + list string;
  (** [erc20_contract.caller.getERC721Address()] *)
  getERC721Address : string -> exn + string;
  (** [OrderStartedProcessor(erc721, es, to_block, chain_id).process()] *)
  order_started_process : string -> Z -> exn + unit;
  (** [TokenURIUpdatedProcessor(event, web3, es, chain_id).process()] *)
  token_uri_process : RawLog -> exn + unit;
  (** [purgatory.update_lists()], when a purgatory is configured *)
  purgatory : option (exn + unit)
}.

(** *** The observable state *)

(** A processor whose [process()] returned. *)
Record Dispatch := {
  dispatch_kind : EventType;
  dispatch_event : RawLog
}.

Record World := {
  (** [self._monitor_is_on] *)
  monitor_is_on : bool;
  (** [last_block] of the document [events_last_block_<chain_id>] *)
  es_checkpoint : option Z;
  (** the asset index *)
  es_assets : list Asset;
  (** number of calls made to Elasticsearch so far *)
  es_calls : nat;
  (** the [get_logs] calls made so far, oldest first *)
  queries : list FilterParams;
  (** the processors run to completion so far, oldest first *)
  processed : list Dispatch;
  logs : list log_entry;
  (** seconds spent in [time.sleep] *)
  slept : Z
}.

(** *** Computations: state, exceptions and fuel for the unbounded loops *)

Inductive res (A : Type) :=
| Ret (a : A) (w : World)
| Raise (e : exn) (w : World)
| Diverge.
Arguments Ret {A} a w.
Arguments Raise {A} e w.
Arguments Diverge {A}.

Definition M (A : Type) := World -> res A.

Definition ret {A} (a : A) : M A := fun w => Ret a w.

Definition raise {A} (e : exn) : M A := fun w => Raise e w.

Definition diverge {A} : M A := fun _ => Diverge.

Definition bind {A B} (m : M A) (k : A -> M B) : M B :=
  fun w =>
    match m w with
    | Ret a w' => k a w'
    | Raise e w' => Raise e w'
    | Diverge => Diverge
    end.

Notation "'let*' x := m 'in' k" := (bind m (fun x => k))
  (at level 10, x name, m at level 100, k at level 200).
Notation "m ;; k" := (bind m (fun _ => k))
  (at level 100, k at level 200, right associativity).

(** [try: m except C as e: handler e], where [catches] decides membership
    in the class [C]. *)
Definition try_except {A} (m : M A) (catches : exn -> bool) (handler : exn -> M A) : M A :=
  fun w =>
    match m w with
    | Raise e w' => if catches e then handler e w' else Raise e w'
    | r => r
    end.

(** The result of a call to a collaborator. *)
Definition lift {A} (r : exn + A) : M A :=
  match r with
  | inl e => raise e
  | inr a => ret a
  end.

(** [t[0]] *)
Definition first_of {A} (t : list A) : M A :=
  match t with
  | [] => raise IndexError
  | x :: _ => ret x
  end.

(** [for x in xs: body x] *)
Fixpoint for_each {A} (xs : list A) (body : A -> M unit) : M unit :=
  match xs with
  | [] => ret tt
  | x :: xs' => body x ;; for_each xs' body
  end.

Definition logger (lvl : log_level) (msg : string) : M unit :=
  fun w =>
    Ret tt {| monitor_is_on := monitor_is_on w; es_checkpoint := es_checkpoint w;
              es_assets := es_assets w; es_calls := es_calls w; queries := queries w;
              processed := processed w; logs := logs w ++ [Log lvl msg];
              slept := slept w |}.

Definition sleep (seconds : Z) : M unit :=
  fun w =>
    Ret tt {| monitor_is_on := monitor_is_on w; es_checkpoint := es_checkpoint w;
              es_assets := es_assets w; es_calls := es_calls w; queries := queries w;
              processed := processed w; logs := logs w;
              slept := slept w + seconds |}.

Definition record_query (q : FilterParams) : M unit :=
  fun w =>
    Ret tt {| monitor_is_on := monitor_is_on w; es_checkpoint := es_checkpoint w;
              es_assets := es_assets w; es_calls := es_calls w; queries := queries w ++ [q];
              processed := processed w; logs := logs w;
              slept := slept w |}.

Definition record_dispatch (d : Dispatch) : M unit :=
  fun w =>
    Ret tt {| monitor_is_on := monitor_is_on w; es_checkpoint := es_checkpoint w;
              es_assets := es_assets w; es_calls := es_calls w; queries := queries w;
              processed := processed w ++ [d]; logs := logs w;
              slept := slept w |}.

(** *** The monitor *)

Section monitor.

Variable env : Env.

(** **** Elasticsearch *)

(** Every call to the client consumes one outcome. *)
Definition es_call : M outcome :=
  fun w =>
    Ret (es_outcome env (es_calls w))
        {| monitor_is_on := monitor_is_on w; es_checkpoint := es_checkpoint w;
           es_assets := es_assets w; es_calls := S (es_calls w); queries := queries w;
           processed := processed w; logs := logs w; slept := slept w |}.

(** [es.ping()]: the client turns a transport error into [False]. *)
Definition es_ping : M bool :=
  let* o := es_call in
  match o with
  | Healthy => ret true
  | Unreachable => ret false
  | Fails e => raise e
  end.

(** [es.get(index=_other_db_index, id=_index_name)["_source"]["last_block"]] *)
Definition es_get_last_block : M Z :=
  let* o := es_call in
  match o with
  | Healthy =>
      fun w =>
        match es_checkpoint w with
        | Some b => Ret b w
        | None => Raise NotFoundError w
        end
  | Unreachable => raise ConnectionError
  | Fails e => raise e
  end.

(** [es.index(index=_other_db_index, id=_index_name, body={"last_block": block})] *)
Definition es_index_last_block (block : Z) : M unit :=
  let* o := es_call in
  match o with
  | Healthy =>
      fun w =>
        Ret tt {| monitor_is_on := monitor_is_on w; es_checkpoint := Some block;
                  es_assets := es_assets w; es_calls := es_calls w; queries := queries w;
                  processed := processed w; logs := logs w; slept := slept w |}
  | Unreachable => raise ConnectionError
  | Fails e => raise e
  end.

Definition in_chain (a : Asset) : bool := Z.eqb (chainId a) (chain_id env).

(** [es.search(index=db_index, body=body)]: the total number of matching
    documents and the first [size] of them (ten when no size is given). *)
Definition es_search (size : option nat) : M (nat * list Asset) :=
  let* o := es_call in
  match o with
  | Healthy =>
      fun w =>
        let hits := List.filter in_chain (es_assets w) in
        Ret (length hits, take (default 10%nat size) hits) w
  | Unreachable => raise ConnectionError
  | Fails e => raise e
  end.

(** [self._es_instance.delete(asset_id)] *)
Definition es_delete (asset_id : string) : M unit :=
  let* o := es_call in
  match o with
  | Healthy =>
      fun w =>
        if existsb (fun a => bool_decide (id a = asset_id)) (es_assets w) then
          Ret tt {| monitor_is_on := monitor_is_on w;
                    es_checkpoint := es_checkpoint w;
                    es_assets :=
                      List.filter (fun a => negb (bool_decide (id a = asset_id)))
                                  (es_assets w);
                    es_calls := es_calls w; queries := queries w;
                    processed := processed w; logs := logs w; slept := slept w |}
        else Raise NotFoundError w
  | Unreachable => raise ConnectionError
  | Fails e => raise e
  end.

(** **** The checkpoint *)

(** The loop that re-establishes the connection at the head of
    [get_last_processed_block]; one unit of fuel per ping. *)
Fixpoint wait_for_es (fuel : nat) : M unit :=
  match fuel with
  | O => diverge
  | S fuel' =>
      let* up :=
        try_except es_ping is_ElasticsearchException
          (fun es_err =>
             logger ERROR ("Elasticsearch error: " ++ exn_str es_err) ;;
             ret false) in
      if up then ret tt
      else
        logger ERROR "Connection to ES failed. Trying to connect to back..." ;;
        sleep 5 ;;
        wait_for_es fuel'
  end.

Definition get_last_processed_block (fuel : nat) : M Z :=
  let block := defined_block env in
  try_except
    (wait_for_es fuel ;;
     logger INFO "Stable connection to ES." ;;
     let* last_block := es_get_last_block in
     ret (if 0 <=? last_block then last_block else defined_block env))
    is_Exception
    (fun e =>
       if is_NotFoundError e then
         logger INFO "Retrieved the default block. NotFound error occurred." ;;
         ret (defined_block env)
       else
         logger ERROR ("Cannot get last_block error=" ++ exn_str e) ;;
         ret block).

Definition store_last_processed_block (fuel : nat) (block : Z) : M unit :=
  let* stored_block := get_last_processed_block fuel in
  if block <=? stored_block then ret tt
  else
    try_except (es_index_last_block block) is_RequestError
      (fun _ =>
         logger ERROR "store_last_processed_block: ES RequestError").

Definition get_assets_in_chain : M (list Asset) :=
  let* page := es_search None in
  let total := page.1 in
  let* page := es_search (Some total) in
  ret page.2.

Definition reset_chain (fuel : nat) : M unit :=
  let* assets := get_assets_in_chain in
  for_each assets
    (fun asset =>
       try_except (es_delete (id asset)) is_Exception
         (fun e => logger ERROR ("Delete asset failed: " ++ exn_str e))) ;;
  store_last_processed_block fuel (start_block env).

(** The clean start of the constructor:
    [if get_bool_env_value("EVENTS_CLEAN_START", 0): self.reset_chain()]. *)
Definition init_clean_start (fuel : nat) : M unit :=
  if clean_start env then reset_chain fuel else ret tt.

(** **** The block-range scanner *)

(** [self._web3.eth.get_logs(filter_params)] *)
Definition web3_get_logs (filter_params : FilterParams) : M (list RawLog) :=
  record_query filter_params ;;
  lift (get_logs env filter_params).

(** The [while _from <= to_block] loop of [get_event_logs]; one unit of
    fuel per iteration. *)
Fixpoint get_event_logs_loop (fuel : nat) (event_signature_hash : string)
    (from_block to_block chunk_size _from _to : Z) (all_logs : list RawLog)
    : M (list RawLog) :=
  if _from <=? to_block then
    match fuel with
    | O => diverge
    | S fuel' =>
        let filter_params :=
          {| topics := [event_signature_hash]; fromBlock := _from; toBlock := _to |} in
        let* found := web3_get_logs filter_params in
        let all_logs := (all_logs ++ found)%list in
        (if (_from - from_block) `mod` 1000 =? 0 then
           logger DEBUG ("Searched blocks " ++ pretty _from ++ " to " ++ pretty _to)
         else ret tt) ;;
        let _from := _to + 1 in
        let _to := Z.min (_from + chunk_size - 1) to_block in
        get_event_logs_loop fuel' event_signature_hash
          from_block to_block chunk_size _from _to all_logs
    end
  else ret all_logs.

Definition get_event_logs (fuel : nat) (event_name : EventType)
    (from_block to_block chunk_size : Z) : M (list RawLog) :=
  if negb (bool_decide (event_name ∈ get_all_values)) then ret []
  else
    let event_signature_hash := keccak env (hash_text event_name) in
    let _from := from_block in
    let _to := Z.min (_from + chunk_size - 1) to_block in
    logger INFO ("Searching in blocks " ++ pretty from_block ++ " to " ++ pretty to_block) ;;
    let* all_logs :=
      get_event_logs_loop fuel event_signature_hash
        from_block to_block chunk_size _from _to [] in
    logger INFO ("Finished searching in blocks " ++ pretty from_block
                 ++ " to " ++ pretty to_block) ;;
    ret all_logs.

(** **** The dispatcher *)

Definition handle_regular_event_processor (fuel : nat) (event_name : EventType)
    (processor : Processor) (from_block to_block : Z) : M unit :=
  let* events := get_event_logs fuel event_name from_block to_block 1000 in
  for_each events
    (fun event =>
       let* dt_contract := lift (toChecksumAddress env (address event)) in
       let* receipt := lift (get_transaction_receipt env (transactionHash event)) in
       let* event_object :=
         first_of (processReceipt env event_name dt_contract receipt) in
       try_except
         (let* metadata_proofs := lift (processReceipt_proofs env dt_contract receipt) in
          lift (regular_process env processor event_object dt_contract
                  (receipt_from receipt) metadata_proofs) ;;
          record_dispatch {| dispatch_kind := event_name; dispatch_event := event |})
         is_Exception
         (fun e =>
            logger EXCEPTION ("Error processing event: " ++ exn_str e
                              ++ " event=" ++ transactionHash event))).

Definition price_change_events : list EventType :=
  [EVENT_ORDER_STARTED; EVENT_EXCHANGE_CREATED;
   EVENT_EXCHANGE_RATE_CHANGED; EVENT_DISPENSER_CREATED].

Definition handle_price_change (fuel : nat) (from_block to_block : Z) : M unit :=
  let* fre := lift (get_fre env) in
  let* dispenser := lift (get_dispenser env) in
  for_each price_change_events
    (fun event_name =>
       let* events := get_event_logs fuel event_name from_block to_block 1000 in
       for_each events
         (fun event =>
            let* erc20_address :=
              match event_name with
              | EVENT_EXCHANGE_CREATED =>
                  let* receipt :=
                    lift (get_transaction_receipt env (transactionHash event)) in
                  ret (receipt_to receipt)
              | EVENT_EXCHANGE_RATE_CHANGED =>
                  let* receipt :=
                    lift (get_transaction_receipt env (transactionHash event)) in
                  let* decoded := lift (fre_processReceipt env fre receipt) in
                  let* exchange_id := first_of decoded in
                  lift (fre_getExchange env fre exchange_id)
              | EVENT_DISPENSER_CREATED =>
                  let* receipt :=
                    lift (get_transaction_receipt env (transactionHash event)) in
                  let* decoded := lift (dispenser_processReceipt env dispenser receipt) in
                  first_of decoded
              | _ => ret (address event)
              end in
            let* erc20_contract := lift (toChecksumAddress env erc20_address) in
            logger DEBUG ("event detected on ERC20 contract " ++ address event) ;;
            try_except
              (let* erc721 := lift (getERC721Address env erc20_contract) in
               lift (order_started_process env erc721 to_block) ;;
               record_dispatch {| dispatch_kind := event_name; dispatch_event := event |})
              is_Exception
              (fun e =>
                 logger ERROR ("Error processing event: " ++ exn_str e
                               ++ " event=" ++ transactionHash event)))).

Definition handle_token_uri_update (fuel : nat) (from_block to_block : Z) : M unit :=
  let* events := get_event_logs fuel EVENT_TOKEN_URI_UPDATE from_block to_block 1000 in
  for_each events
    (fun event =>
       try_except
         (lift (token_uri_process env event) ;;
          record_dispatch {| dispatch_kind := EVENT_TOKEN_URI_UPDATE;
                             dispatch_event := event |})
         is_Exception
         (fun e =>
            logger ERROR ("Error processing token update event: " ++ exn_str e
                          ++ " event=" ++ transactionHash event))).

(** The [event_processors] dictionary, in insertion order. *)
Definition event_processors : list (EventType * Processor) :=
  [(EVENT_METADATA_CREATED, MetadataCreatedProcessor);
   (EVENT_METADATA_UPDATED, MetadataUpdatedProcessor);
   (EVENT_METADATA_STATE, MetadataStateProcessor)].

Definition process_block_range (fuel : nat) (from_block to_block : Z) : M unit :=
  logger DEBUG ("Metadata monitor >>>> from_block:" ++ pretty from_block
                ++ ", current_block:" ++ pretty to_block ++ " <<<<") ;;
  if to_block <? from_block then ret tt
  else
    for_each event_processors
      (fun entry =>
         handle_regular_event_processor fuel entry.1 entry.2 from_block to_block) ;;
    handle_price_change fuel from_block to_block ;;
    handle_token_uri_update fuel from_block to_block ;;
    store_last_processed_block fuel to_block.

(** [range(start, stop, step)] *)
Definition py_range (start stop step : Z) : M (list Z) :=
  if step =? 0 then raise ValueError
  else
    let n :=
      if 0 <? step then (stop - start + step - 1) `div` step
      else (start - stop - step - 1) `div` (- step) in
    ret ((fun i => start + i * step) <$> seqZ 0 n).

(** The [for end_block_chunk in range(...)] loop of
    [process_current_blocks]; returns the last value bound to
    [end_block_chunk], if any. *)
Fixpoint chunk_loop (fuel : nat) (start_block_chunk : Z) (ends : list Z)
    (end_block_chunk : option Z) : M (option Z) :=
  match ends with
  | [] => ret end_block_chunk
  | e :: rest =>
      process_block_range fuel start_block_chunk e ;;
      chunk_loop fuel e rest (Some e)
  end.

Definition process_current_blocks (fuel : nat) : M unit :=
  let* last_block := get_last_processed_block fuel in
  let* current_block := lift (block_number env) in
  if negb (truthy current_block) then ret tt
  else
    match as_int current_block with
    | None => ret tt
    | Some current_block =>
        if current_block <=? last_block then ret tt
        else
          let from_block := last_block in
          let start_block_chunk := from_block in
          let* ends := py_range from_block current_block (blockchain_chunk_size env) in
          let* end_block_chunk := chunk_loop fuel start_block_chunk ends None in
          match end_block_chunk with
          | None => raise UnboundLocalError
          | Some end_block_chunk =>
              process_block_range fuel end_block_chunk current_block
          end
    end.

(** **** The background loop *)

(** [self._monitor_sleep_time], as computed by the constructor. *)
Definition monitor_sleep_time : Z :=
  let default_sleep_time := 10 in
  Z.max (default default_sleep_time (quiet_time env)) default_sleep_time.


Definition do_run_monitor (fuel : nat) : M unit :=
  fun w =>
    if negb (monitor_is_on w) then Ret tt w
    else
      (try_except (process_current_blocks fuel) is_Exception
         (fun e => logger ERROR ("Error processing event: " ++ exn_str e ++ ".")) ;;
       match purgatory env with
       | Some update_lists =>
           try_except (lift update_lists) is_Exception
             (fun e => logger ERROR ("Error updating purgatory list: "
                                     ++ exn_str e ++ "."))
       | None => ret tt
       end) w.


(** The first [n] iterations of the loop of [run_monitor]. *)
Fixpoint run_monitor_iterations (n fuel : nat) : M unit :=
  match n with
  | O => ret tt
  | S n' =>
      do_run_monitor fuel ;;
      sleep monitor_sleep_time ;;
      run_monitor_iterations n' fuel
  end.

End monitor.

(** *** Vocabulary of the properties *)

(** [quiet w w']: between [w] and [w'] the monitor neither wrote to the
    store, nor queried the ledger, nor ran a processor, nor touched its
    flag; it may have logged, slept and read from the store. *)
Definition quiet (w w' : World) : Prop :=
  monitor_is_on w' = monitor_is_on w /\
  es_checkpoint w' = es_checkpoint w /\
  es_assets w' = es_assets w /\
  queries w' = queries w /\
  processed w' = processed w.

(** The flag as set from outside the loop, and its effect on a result. *)
Definition set_flag (on : bool) (w : World) : World :=
  {| monitor_is_on := on; es_checkpoint := es_checkpoint w;
     es_assets := es_assets w; es_calls := es_calls w;
     queries := queries w; processed := processed w;
     logs := logs w; slept := slept w |}.

Definition res_map {A} (f : World -> World) (r : res A) : res A :=
  match r with
  | Ret a w => Ret a (f w)
  | Raise e w => Raise e (f w)
  | Diverge => Diverge
  end.

(** A computation that neither reads nor writes the flag: setting the flag
    before it or after it comes to the same. *)
Definition flag_blind {A} (m : M A) : Prop :=
  forall on w, m (set_flag on w) = res_map (set_flag on) (m w).

(** A ping that sends [get_last_processed_block] round its retry loop. *)
Definition ping_fails (o : outcome) : bool :=
  match o with
  | Healthy => false
  | Unreachable => true
  | Fails e => is_ElasticsearchException e
  end.

(** What a read of the checkpoint yields once the cluster answers the
    ping, given the fate of the following [es.get]. *)
Definition read_value (env : Env) (o : outcome) (stored : option Z) : Z :=
  match o, stored with
  | Healthy, Some b => if 0 <=? b then b else defined_block env
  | _, _ => defined_block env
  end.

(** A store that answers every call. *)
Definition healthy (env : Env) : Prop := forall n, es_outcome env n = Healthy.

(** The number of blocks of a query and the blocks it covers. *)
Definition width (q : FilterParams) : Z := toBlock q - fromBlock q + 1.

Definition blocks_queried (q : FilterParams) : list Z := seqZ (fromBlock q) (width q).

(** The successive values of [(_from, _to)] at which the loop of
    [get_event_logs] calls [get_logs], read off the loop. *)
Fixpoint scan_ranges (fuel : nat) (to_block chunk_size _from _to : Z) : list (Z * Z) :=
  if _from <=? to_block then
    match fuel with
    | O => []
    | S fuel' =>
        let _from' := _to + 1 in
        (_from, _to)
          :: scan_ranges fuel' to_block chunk_size _from'
               (Z.min (_from' + chunk_size - 1) to_block)
    end
  else [].

(** The number of queries that cover [[from_block, to_block]]. *)
Definition chunks (from_block to_block chunk_size : Z) : nat :=
  Z.to_nat ((to_block - from_block + chunk_size) `div` chunk_size).

Definition query_for (env : Env) (event_name : EventType) (r : Z * Z) : FilterParams :=
  {| topics := [keccak env (hash_text event_name)]; fromBlock := r.1; toBlock := r.2 |}.

(** The logs a query returns, when it returns. *)
Definition logs_of (env : Env) (q : FilterParams) : list RawLog :=
  match get_logs env q with
  | inr found => found
  | inl _ => []
  end.

(** Every field but the log and the list of completed processors is the
    same. *)
Definition dispatched (w w' : World) : Prop :=
  monitor_is_on w' = monitor_is_on w /\
  es_checkpoint w' = es_checkpoint w /\
  es_assets w' = es_assets w /\
  es_calls w' = es_calls w /\
  queries w' = queries w /\
  slept w' = slept w.

(** The stages of [handle_regular_event_processor] that precede its [try]
    block: the contract, the receipt and the first decoded event of a log,
    when none of the three raises. *)
Definition decodes (env : Env) (event_name : EventType) (event : RawLog)
    : option (string * Receipt * string) :=
  match toChecksumAddress env (address event) with
  | inl _ => None
  | inr dt_contract =>
      match get_transaction_receipt env (transactionHash event) with
      | inl _ => None
      | inr receipt =>
          match processReceipt env event_name dt_contract receipt with
          | [] => None
          | event_object :: _ => Some (dt_contract, receipt, event_object)
          end
      end
  end.

(** The stages inside the [try] block: decoding the proofs, building the
    processor and running it. *)
Definition guarded (env : Env) (processor : Processor)
    (d : string * Receipt * string) : exn + unit :=
  match processReceipt_proofs env d.1.1 d.1.2 with
  | inl e => inl e
  | inr metadata_proofs =>
      regular_process env processor d.2 d.1.1 (receipt_from d.1.2) metadata_proofs
  end.

Definition exception_entry (e : exn) (event : RawLog) : log_entry :=
  Log EXCEPTION ("Error processing event: " ++ exn_str e
                 ++ " event=" ++ transactionHash event).

(** What a decodable log leaves behind: a completed processor or a log
    entry of level [EXCEPTION]. *)
Definition dispatched_of (env : Env) (event_name : EventType)
    (processor : Processor) (event : RawLog) : option Dispatch :=
  match guarded env processor <$> decodes env event_name event with
  | Some (inr _) => Some {| dispatch_kind := event_name; dispatch_event := event |}
  | _ => None
  end.

Definition logged_of (env : Env) (event_name : EventType)
    (processor : Processor) (event : RawLog) : option log_entry :=
  match guarded env processor <$> decodes env event_name event with
  | Some (inl e) => Some (exception_entry e event)
  | _ => None
  end.

(** A ledger node that answers every [get_logs] call. *)
Definition ledger_up (env : Env) : Prop :=
  forall q, exists found, get_logs env q = inr found.

(** A ledger without any log of interest. *)
Definition no_logs (env : Env) : Prop := forall q, get_logs env q = inr [].

(** The kinds of event in the order [process_block_range] scans them. *)
Definition dispatch_order : list EventType :=
  [EVENT_METADATA_CREATED; EVENT_METADATA_UPDATED; EVENT_METADATA_STATE;
   EVENT_ORDER_STARTED; EVENT_EXCHANGE_CREATED; EVENT_EXCHANGE_RATE_CHANGED;
   EVENT_DISPENSER_CREATED; EVENT_TOKEN_URI_UPDATE].

(** The queries of one scan of [[from_block, to_block]]: for each kind in
    turn, the ranges of [get_event_logs] with its default chunk size. *)
Definition scan_of (env : Env) (fuel : nat) (from_block to_block : Z) : list FilterParams :=
  concat
    ((fun event_name =>
        query_for env event_name
          <$> scan_ranges fuel to_block 1000 from_block
                (Z.min (from_block + 1000 - 1) to_block))
       <$> dispatch_order).

(** Every field but the log and the [get_logs] trace is the same. *)
Definition scanned (w w' : World) : Prop :=
  monitor_is_on w' = monitor_is_on w /\
  es_checkpoint w' = es_checkpoint w /\
  es_assets w' = es_assets w /\
  es_calls w' = es_calls w /\
  processed w' = processed w /\
  slept w' = slept w.

End EventsMonitor.

(** ** Concrete collaborators used to run the embedding *)

Module Examples.

Import EventsMonitor.

Definition dquote : ascii := ascii_of_nat 34.

(** A decoder for JSON arrays of string literals without escapes, standing
    for [set(json.loads(text))] on such texts; any other text is rejected. *)
Inductive scan_state :=
| AtStart
| AfterOpen
| InString (cur : string)
| AfterString
| AfterComma
| AtEnd.

Fixpoint scan (st : scan_state) (acc : list string) (text : string)
    : string + list string :=
  match text with
  | EmptyString =>
      match st with
      | AtEnd => inr (rev acc)
      | _ => inl "Expecting value"
      end
  | String c rest =>
      match st with
      | AtStart =>
          if Ascii.eqb c "[" then scan AfterOpen acc rest
          else inl "not iterable"
      | AfterOpen =>
          if Ascii.eqb c dquote then scan (InString "") acc rest
          else if Ascii.eqb c "]" then scan AtEnd acc rest
          else inl "Expecting value"
      | InString cur =>
          if Ascii.eqb c dquote then scan AfterString (cur :: acc) rest
          else scan (InString (cur ++ String c "")) acc rest
      | AfterString =>
          if Ascii.eqb c "," then scan AfterComma acc rest
          else if Ascii.eqb c "]" then scan AtEnd acc rest
          else inl "Expecting ',' delimiter"
      | AfterComma =>
          if Ascii.eqb c dquote then scan (InString "") acc rest
          else inl "Expecting value"
      | AtEnd => inl "Extra data"
      end
  end.

Definition demo_loads_set (text : string) : string + list string :=
  scan AtStart [] text.

Definition quoted (s : string) : string :=
  String dquote (s ++ String dquote "").

(** A normaliser standing for [web3.toChecksumAddress]: it accepts [0x]
    followed by hexadecimal digits and folds the letters to upper case. *)
Definition upper_hex (c : ascii) : option ascii :=
  let n := nat_of_ascii c in
  if (48 <=? n)%nat && (n <=? 57)%nat then Some c
  else if (65 <=? n)%nat && (n <=? 70)%nat then Some c
  else if (97 <=? n)%nat && (n <=? 102)%nat then Some (ascii_of_nat (n - 32))
  else None.

Fixpoint upper_hex_string (s : string) : option string :=
  match s with
  | EmptyString => Some EmptyString
  | String c rest =>
      match upper_hex c, upper_hex_string rest with
      | Some c', Some rest' => Some (String c' rest')
      | _, _ => None
      end
  end.

Definition demo_checksum (s : string) : option string :=
  match s with
  | String "0" (String "x" digits) =>
      match upper_hex_string digits with
      | Some d => Some ("0x" ++ d)
      | None => None
      end
  | _ => None
  end.

(** Five [MetadataCreated] logs, one per block 1..5. *)
Definition five_logs : list RawLog :=
  (fun n => {| address := "0xnft";
               transactionHash := "0x0" ++ pretty n;
               blockNumber := n |}) <$> seqZ 1 5.

(** A ledger holding [created] as its [MetadataCreated] logs and nothing
    else: [get_logs] returns those of the queried blocks. *)
Definition ledger (created : list RawLog) (q : FilterParams) : exn + list RawLog :=
  if bool_decide (topics q = [hash_text EVENT_METADATA_CREATED]) then
    inr (List.filter
           (fun l => (fromBlock q <=? blockNumber l) && (blockNumber l <=? toBlock q))
           created)
  else inr [].

(** The environment of the examples: the configured blocks, the reported
    head, the behaviour of the store, the ledger, the transactions whose
    event cannot be decoded and those whose processor raises.  Every other
    collaborator succeeds. *)
Definition demo_env (defined start : Z) (head : pyobj) (es : nat -> outcome)
    (created : list RawLog) (undecodable failing : list string) : Env := {|
  chain_id := 8996;
  defined_block := defined;
  start_block := start;
  blockchain_chunk_size := 1000;
  clean_start := true;
  quiet_time := None;
  es_outcome := es;
  block_number := inr head;
  keccak := fun text => text;
  get_logs := ledger created;
  toChecksumAddress := fun a => inr a;
  get_transaction_receipt :=
    fun tx => inr {| receipt_tx := tx; receipt_from := "0xpublisher";
                     receipt_to := "0xtoken" |};
  processReceipt :=
    fun _ _ receipt =>
      if bool_decide (receipt_tx receipt ∈ undecodable) then []
      else [receipt_tx receipt];
  processReceipt_proofs := fun _ _ => inr [];
  regular_process :=
    fun _ event_object _ _ _ =>
      if bool_decide (event_object ∈ failing) then inl ValueError else inr tt;
  get_fre := inr "0xfre";
  get_dispenser := inr "0xdispenser";
  fre_processReceipt := fun _ _ => inr ["exchange"];
  fre_getExchange := fun _ _ => inr "0xtoken";
  dispenser_processReceipt := fun _ _ => inr ["0xtoken"];
  getERC721Address := fun _ => inr "0xnft";
  order_started_process := fun _ _ => inr tt;
  token_uri_process := fun _ => inr tt;
  purgatory := None
|}.

Definition always_up : nat -> outcome := fun _ => Healthy.

(** An empty ledger with head 1050, default block 0 and start block 42. *)
Definition quiet_env : Env := demo_env 0 42 (PyInt 1050) always_up [] [] [].

Definition world_with (on : bool) (checkpoint : option Z) (assets : list Asset)
    : World := {|
  monitor_is_on := on;
  es_checkpoint := checkpoint;
  es_assets := assets;
  es_calls := 0;
  queries := [];
  processed := [];
  logs := [];
  slept := 0
|}.

(** A store that is unreachable, then refuses the connection, then answers. *)
Definition flaky (n : nat) : outcome :=
  match n with
  | 0%nat => Unreachable
  | 1%nat => Fails ConnectionError
  | _ => Healthy
  end.

(** Three documents of chain 8996 and one of another chain. *)
Definition four_assets : list Asset :=
  [{| id := "did:op:1"; chainId := 8996 |};
   {| id := "did:op:2"; chainId := 8996 |};
   {| id := "did:op:9"; chainId := 1 |};
   {| id := "did:op:3"; chainId := 8996 |}].

(** Head 5 over [five_logs]; the event of transaction [0x02] cannot be
    decoded. *)
Definition undecodable_env : Env :=
  demo_env 0 42 (PyInt 5) always_up five_logs ["0x02"] [].

(** Head 5 over [five_logs]; the processor of transaction [0x02] raises. *)
Definition failing_env : Env :=
  demo_env 0 42 (PyInt 5) always_up five_logs [] ["0x02"].

(** The ranges of the [get_logs] calls made for one kind of event. *)
Definition ranges_of (event_name : EventType) (qs : list FilterParams) : list (Z * Z) :=
  (fun q => (fromBlock q, toBlock q))
    <$> List.filter (fun q => bool_decide (topics q = [hash_text event_name])) qs.

End Examples.

(** ** events_monitor.py: the registry of chains *)

Module ChainRegistry.

Import EventsMonitor.

(** The document [chains] of the administrative index, a dictionary from
    [str(chain_id)] to [True], with the calls made to Elasticsearch and the
    log. *)
Record Registry := {
  chains_doc : option (gmap string bool);
  registry_calls : nat;
  registry_logs : list log_entry
}.

(** [add_chain_id_to_chains_list]: [es_outcome] gives the fate of the n-th
    call to Elasticsearch, as in [Env]. *)
Definition add_chain_id_to_chains_list (es_outcome : nat -> outcome) (chain_id : Z)
    (r : Registry) : (exn + unit) * Registry :=
  let chains : gmap string bool :=
    match es_outcome (registry_calls r), chains_doc r with
    | Healthy, Some source => source
    | _, _ => ∅
    end in
  let chains := <[pretty chain_id := true]> chains in
  match es_outcome (S (registry_calls r)) with
  | Healthy =>
      (inr tt,
       {| chains_doc := Some chains;
          registry_calls := S (S (registry_calls r));
          registry_logs :=
            registry_logs r
            ++ [Log INFO ("Added " ++ pretty chain_id ++ " to chains list")] |})
  | Fails RequestError =>
      (inr tt,
       {| chains_doc := chains_doc r;
          registry_calls := S (S (registry_calls r));
          registry_logs :=
            registry_logs r
            ++ [Log ERROR ("Cannot add chain_id " ++ pretty chain_id
                           ++ " to chains list: ES RequestError")] |})
  | Fails e =>
      (inl e,
       {| chains_doc := chains_doc r;
          registry_calls := S (S (registry_calls r));
          registry_logs := registry_logs r |})
  | Unreachable =>
      (inl ConnectionError,
       {| chains_doc := chains_doc r;
          registry_calls := S (S (registry_calls r));
          registry_logs := registry_logs r |})
  end.

(** The entries of the document, none when there is no document. *)
Definition registered (r : Registry) : gmap string bool :=
  default ∅ (chains_doc r).

(** Monitors of the chains [ids] constructed one after the other over the
    same administrative index; a constructor that raises leaves the next
    one to start from the state it left. *)
Definition register_all (es_outcome : nat -> outcome) (ids : list Z) (r : Registry)
    : Registry :=
  foldl (fun r chain_id => (add_chain_id_to_chains_list es_outcome chain_id r).2) r ids.

(** A registry without document, before any call. *)
Definition no_registry : Registry :=
  {| chains_doc := None; registry_calls := 0; registry_logs := [] |}.

End ChainRegistry.

(** ** Vocabulary of the further properties *)

Module Frames.

Import EventsMonitor.

(** [keeps P m]: whenever [m] returns or raises, the state it leaves is
    related by [P] to the state it started from. *)
Definition keeps (P : World -> World -> Prop) {A} (m : M A) : Prop :=
  forall w,
    match m w with
    | Ret _ w' | Raise _ w' => P w w'
    | Diverge => True
    end.

(** The checkpoint document is as it was. *)
Definition same_checkpoint (w w' : World) : Prop :=
  es_checkpoint w' = es_checkpoint w.

(** What a read of the checkpoint returns from an answering store. *)
Definition checkpoint_value (env : Env) (w : World) : Z :=
  read_value env Healthy (es_checkpoint w).

(** The value read back has not gone down. *)
Definition not_lower (env : Env) (w w' : World) : Prop :=
  checkpoint_value env w <= checkpoint_value env w'.

(** A ledger node whose answer to a query is the concatenation, block by
    block, of the logs that carry the queried topic. *)
Definition block_indexed (env : Env) (per_block : list string -> Z -> list RawLog) : Prop :=
  forall q,
    get_logs env q
    = inr (concat (per_block (topics q) <$> blocks_queried q)).

(** The stages of [handle_token_uri_update] inside its [try] block. *)
Definition token_uri_dispatched (env : Env) (event : RawLog) : option Dispatch :=
  match token_uri_process env event with
  | inr _ => Some {| dispatch_kind := EVENT_TOKEN_URI_UPDATE; dispatch_event := event |}
  | inl _ => None
  end.

Definition token_uri_logged (env : Env) (event : RawLog) : option log_entry :=
  match token_uri_process env event with
  | inl e =>
      Some (Log ERROR ("Error processing token update event: " ++ exn_str e
                       ++ " event=" ++ transactionHash event))
  | inr _ => None
  end.

End Frames.

(** ** More concrete collaborators *)

Module MoreExamples.

Import EventsMonitor Examples.

(** [env] with another ledger node, another store, another outer chunk
    size. *)
Definition with_get_logs (g : FilterParams -> exn + list RawLog) (env : Env) : Env := {|
  chain_id := chain_id env;
  defined_block := defined_block env;
  start_block := start_block env;
  blockchain_chunk_size := blockchain_chunk_size env;
  clean_start := clean_start env;
  quiet_time := quiet_time env;
  es_outcome := es_outcome env;
  block_number := block_number env;
  keccak := keccak env;
  get_logs := g;
  toChecksumAddress := toChecksumAddress env;
  get_transaction_receipt := get_transaction_receipt env;
  processReceipt := processReceipt env;
  processReceipt_proofs := processReceipt_proofs env;
  regular_process := regular_process env;
  get_fre := get_fre env;
  get_dispenser := get_dispenser env;
  fre_processReceipt := fre_processReceipt env;
  fre_getExchange := fre_getExchange env;
  dispenser_processReceipt := dispenser_processReceipt env;
  getERC721Address := getERC721Address env;
  order_started_process := order_started_process env;
  token_uri_process := token_uri_process env;
  purgatory := purgatory env
|}.

Definition with_chunk_size (size : Z) (env : Env) : Env := {|
  chain_id := chain_id env;
  defined_block := defined_block env;
  start_block := start_block env;
  blockchain_chunk_size := size;
  clean_start := clean_start env;
  quiet_time := quiet_time env;
  es_outcome := es_outcome env;
  block_number := block_number env;
  keccak := keccak env;
  get_logs := get_logs env;
  toChecksumAddress := toChecksumAddress env;
  get_transaction_receipt := get_transaction_receipt env;
  processReceipt := processReceipt env;
  processReceipt_proofs := processReceipt_proofs env;
  regular_process := regular_process env;
  get_fre := get_fre env;
  get_dispenser := get_dispenser env;
  fre_processReceipt := fre_processReceipt env;
  fre_getExchange := fre_getExchange env;
  dispenser_processReceipt := dispenser_processReceipt env;
  getERC721Address := getERC721Address env;
  order_started_process := order_started_process env;
  token_uri_process := token_uri_process env;
  purgatory := purgatory env
|}.

Definition with_token_uri_process (f : RawLog -> exn + unit) (env : Env) : Env := {|
  chain_id := chain_id env;
  defined_block := defined_block env;
  start_block := start_block env;
  blockchain_chunk_size := blockchain_chunk_size env;
  clean_start := clean_start env;
  quiet_time := quiet_time env;
  es_outcome := es_outcome env;
  block_number := block_number env;
  keccak := keccak env;
  get_logs := get_logs env;
  toChecksumAddress := toChecksumAddress env;
  get_transaction_receipt := get_transaction_receipt env;
  processReceipt := processReceipt env;
  processReceipt_proofs := processReceipt_proofs env;
  regular_process := regular_process env;
  get_fre := get_fre env;
  get_dispenser := get_dispenser env;
  fre_processReceipt := fre_processReceipt env;
  fre_getExchange := fre_getExchange env;
  dispenser_processReceipt := dispenser_processReceipt env;
  getERC721Address := getERC721Address env;
  order_started_process := order_started_process env;
  token_uri_process := f;
  purgatory := purgatory env
|}.

(** One log in every even block, whatever the topic. *)
Definition even_blocks (topic : list string) (b : Z) : list RawLog :=
  if b `mod` 2 =? 0 then
    [{| address := "0xnft"; transactionHash := "0x" ++ pretty b; blockNumber := b |}]
  else [].

(** A node that answers block by block from [even_blocks]. *)
Definition indexed_env : Env :=
  with_get_logs
    (fun q => inr (concat (even_blocks (topics q) <$> blocks_queried q)))
    quiet_env.

(** A node that fails every query starting at block [n] or later. *)
Definition rpc_down_from (n : Z) : Env :=
  with_get_logs
    (fun q => if n <=? fromBlock q then inl (OtherError "rpc") else inr [])
    quiet_env.

(** A node that returns [five_logs] for the token URI updates, with a
    processor that raises on transaction [0x03]. *)
Definition token_uri_env : Env :=
  with_token_uri_process
    (fun event =>
       if bool_decide (transactionHash event = "0x03") then inl ValueError else inr tt)
    (with_get_logs
       (fun q =>
          if bool_decide (topics q = [hash_text EVENT_TOKEN_URI_UPDATE])
          then inr five_logs else inr [])
       quiet_env).

(** A store whose third call fails with the given exception. *)
Definition third_call_fails (e : exn) (n : nat) : outcome :=
  match n with
  | 2%nat => Fails e
  | _ => Healthy
  end.

(** A store whose first call raises outside the Elasticsearch classes. *)
Definition first_call_breaks (n : nat) : outcome :=
  match n with
  | 0%nat => Fails (OtherError "socket")
  | _ => Healthy
  end.

(** A store that refuses every deletion after two answered searches. *)
Definition deletions_fail (n : nat) : outcome :=
  match n with
  | 0%nat | 1%nat => Healthy
  | 2%nat | 3%nat | 4%nat => Fails TransportError
  | _ => Healthy
  end.

(** A store whose fifth call fails with the given exception. *)
Definition fifth_call_fails (e : exn) (n : nat) : outcome :=
  match n with
  | 4%nat => Fails e
  | _ => Healthy
  end.

(** A store that answers every ping and every write of a cycle and fails
    every read of the checkpoint document: within a cycle the calls
    alternate, a ping and then a read or a write. *)
Definition reads_fail (n : nat) : outcome :=
  if Nat.odd n then Fails TransportError else Healthy.

End MoreExamples.

(** ** Properties of the proof validator *)

Module ProofCheckerSpec.

Import ProofChecker.

Section facts.

Context {pyval : Type}.
Variable loads_set : string -> string + list pyval.
Variable toChecksumAddress : pyval -> option string.

Local Abbreviation check_metadata_proofs :=
  (ProofChecker.check_metadata_proofs loads_set toChecksumAddress).
Local Abbreviation checksum_set := (ProofChecker.checksum_set toChecksumAddress).

Lemma truthy_elements (X : gset string) :
  truthy_list (elements X) = true <-> X ≠ ∅.
Proof.
  destruct (elements X) as [|x l] eqn:E; simpl.
  - apply elements_empty_inv in E. apply leibniz_equiv in E.
    split; [discriminate | intros H; contradiction].
  - split; [|reflexivity]. intros _ ->.
    rewrite elements_empty in E. discriminate.
Qed.

Lemma normalised_elements (l : list pyval) (k : list string) :
  Forall2 (fun v a => toChecksumAddress v = Some a) l k ->
  forall a, a ∈ k <-> exists v, v ∈ l /\ toChecksumAddress v = Some a.
Proof.
  induction 1 as [|v b l k Hv HF IH]; intros a.
  - split; [intros Ha; inversion Ha|intros (v & Hv & _); inversion Hv].
  - rewrite elem_of_cons, IH. split.
    + intros [->|(v' & Hin & Hv')]; [exists v|exists v']; split; auto;
        rewrite elem_of_cons; auto.
    + intros (v' & [->|Hin]%elem_of_cons & Hv'); [left; congruence|right; eauto].
Qed.

(** The set comprehension succeeds exactly when every element normalises,
    and then holds the normalised elements. *)
Lemma checksum_set_Some (vals : list pyval) (X : gset string) :
  checksum_set vals = Some X <->
  (forall v, v ∈ vals -> is_Some (toChecksumAddress v)) /\
  (forall a, a ∈ X <-> exists v, v ∈ vals /\ toChecksumAddress v = Some a).
Proof.
  unfold ProofChecker.checksum_set. split.
  - destruct (mapM toChecksumAddress vals) as [k|] eqn:Ek; [|discriminate].
    intros [= <-]. apply mapM_Some in Ek. split.
    + intros v Hv. apply list_elem_of_lookup in Hv as [i Hi].
      destruct (Forall2_lookup_l _ _ _ _ _ Ek Hi) as (a & _ & Ha). eauto.
    + intros a. rewrite elem_of_list_to_set. apply normalised_elements, Ek.
  - intros [Hall HX].
    destruct (mapM toChecksumAddress vals) as [k|] eqn:Ek.
    + simpl. f_equal. apply set_eq. intros a. rewrite elem_of_list_to_set, HX.
      apply normalised_elements, mapM_Some, Ek.
    + apply mapM_None in Ek. apply Exists_exists in Ek as (v & Hv & Hnone).
      destruct (Hall v Hv) as [a Ha]. congruence.
Qed.

(** C6.  With the allow-list unset, empty as a string or decoding to an
    empty collection the check returns true for every proof set.  With a
    non-empty decoded allow-list it returns true exactly when
    [toChecksumAddress] normalises the validator of every proof and every
    address of the allow-list, and some proof's validator and some address
    of the allow-list normalise to the same address: disjoint normalised
    sets, and an empty proof set, give false. *)
Theorem check_metadata_proofs_decision :
  (forall proofs, (check_metadata_proofs None proofs).1 = true) /\
  (forall proofs, (check_metadata_proofs (Some "") proofs).1 = true) /\
  (forall text proofs,
      loads_set text = inr [] ->
      (check_metadata_proofs (Some text) proofs).1 = true) /\
  (forall text allowed proofs,
      text ≠ "" -> loads_set text = inr allowed -> allowed ≠ [] ->
      ((check_metadata_proofs (Some text) proofs).1 = true <->
       (forall proof, proof ∈ proofs -> is_Some (toChecksumAddress (validator proof))) /\
       (forall address, address ∈ allowed -> is_Some (toChecksumAddress address)) /\
       exists proof address normalised,
         proof ∈ proofs /\ address ∈ allowed /\
         toChecksumAddress (validator proof) = Some normalised /\
         toChecksumAddress address = Some normalised)).
Proof.
  split; [reflexivity|]. split; [reflexivity|]. split.
  - intros text proofs Hl. unfold ProofChecker.check_metadata_proofs.
    case_bool_decide; [reflexivity|]. rewrite Hl. reflexivity.
  - intros text allowed proofs Hne Hl Hal.
    unfold ProofChecker.check_metadata_proofs.
    rewrite bool_decide_eq_false_2 by assumption. rewrite Hl.
    destruct allowed as [|a allowed']; [contradiction|]. simpl negb. cbv iota.
    set (allowed := a :: allowed') in *. split.
    + destruct (checksum_set (validator <$> proofs)) as [P|] eqn:EP; [|discriminate].
      destruct (checksum_set allowed) as [A|] eqn:EA; [|discriminate].
      simpl. intros HT. apply truthy_elements in HT.
      apply checksum_set_Some in EP as [HallP HP].
      apply checksum_set_Some in EA as [HallA HA].
      split; [|split].
      * intros proof Hin. apply HallP, list_elem_of_fmap. eauto.
      * exact HallA.
      * apply set_choose_L in HT as (x & Hx).
        apply elem_of_intersection in Hx as [HxP HxA].
        apply HP in HxP as (v & Hv & Hvx). apply HA in HxA as (address & Haddr & Hax).
        apply list_elem_of_fmap in Hv as (proof & -> & Hproof).
        exists proof, address, x. auto.
    + intros (HallP & HallA & proof & address & x & Hproof & Haddr & Hpx & Hax).
      assert (is_Some (checksum_set (validator <$> proofs))) as [P EP].
      { unfold ProofChecker.checksum_set.
        destruct (mapM toChecksumAddress (validator <$> proofs)) as [k|] eqn:Ek; [eauto|].
        apply mapM_None in Ek. apply Exists_exists in Ek as (v & Hv & Hnone).
        apply list_elem_of_fmap in Hv as (proof' & -> & Hproof').
        destruct (HallP proof' Hproof') as [y Hy]. congruence. }
      assert (is_Some (checksum_set allowed)) as [A EA].
      { unfold ProofChecker.checksum_set.
        destruct (mapM toChecksumAddress allowed) as [k|] eqn:Ek; [eauto|].
        apply mapM_None in Ek. apply Exists_exists in Ek as (v & Hv & Hnone).
        destruct (HallA v Hv) as [y Hy]. congruence. }
      rewrite EP, EA. simpl. apply truthy_elements.
      apply checksum_set_Some in EP as [_ HP].
      apply checksum_set_Some in EA as [_ HA].
      apply (non_empty_inhabited_L x). apply elem_of_intersection. split.
      * apply HP. exists (validator proof). split; [|exact Hpx].
        apply list_elem_of_fmap. eauto.
      * apply HA. eauto.
Qed.

(** C7.  A present allow-list that does not decode makes the check return
    false and log the decoding error; so does any address, of a proof or
    of the allow-list, that cannot be normalised. *)
Theorem check_metadata_proofs_fails_closed :
  (forall text e proofs,
      text ≠ "" -> loads_set text = inl e ->
      check_metadata_proofs (Some text) proofs = (false, [parse_error e])) /\
  (forall text allowed proofs,
      text ≠ "" -> loads_set text = inr allowed -> allowed ≠ [] ->
      checksum_set (validator <$> proofs) = None \/ checksum_set allowed = None ->
      check_metadata_proofs (Some text) proofs = (false, [extraction_error])).
Proof.
  split.
  - intros text e proofs Hne Hl. unfold ProofChecker.check_metadata_proofs.
    rewrite bool_decide_eq_false_2 by assumption. by rewrite Hl.
  - intros text allowed proofs Hne Hl Hal Hfail.
    unfold ProofChecker.check_metadata_proofs.
    rewrite bool_decide_eq_false_2 by assumption. rewrite Hl.
    destruct allowed as [|a allowed]; [contradiction|]. simpl negb. cbv iota.
    destruct (checksum_set (validator <$> proofs)) as [P|]; [|reflexivity].
    destruct Hfail as [?|Hfail]; [discriminate|]. by rewrite Hfail.
Qed.

End facts.

(** The allow-list [["0xab12"]] admits a proof signed by [0xAB12], and
    rejects a proof signed by [0xcd] as it rejects no proof at all. *)
Lemma check_metadata_proofs_decision_witness :
  (check_metadata_proofs Examples.demo_loads_set Examples.demo_checksum
     (Some ("[" ++ Examples.quoted "0xab12" ++ "]"))
     [{| validator := "0xcd" |}; {| validator := "0xAB12" |}]).1 = true /\
  (check_metadata_proofs Examples.demo_loads_set Examples.demo_checksum
     (Some ("[" ++ Examples.quoted "0xab12" ++ "]"))
     [{| validator := "0xcd" |}]).1 <> true /\
  (check_metadata_proofs Examples.demo_loads_set Examples.demo_checksum
     (Some ("[" ++ Examples.quoted "0xab12" ++ "]")) []).1 <> true.
Proof.
  assert (Hne : "[" ++ Examples.quoted "0xab12" ++ "]" ≠ "") by discriminate.
  assert (Hl : Examples.demo_loads_set ("[" ++ Examples.quoted "0xab12" ++ "]")
               = inr ["0xab12"]) by (vm_compute; reflexivity).
  assert (Hal : ["0xab12"] ≠ ([] : list string)) by discriminate.
  pose proof (fun proofs =>
                proj2 (proj2 (proj2
                  (check_metadata_proofs_decision
                     Examples.demo_loads_set Examples.demo_checksum)))
                  _ ["0xab12"] proofs Hne Hl Hal) as Hiff.
  split; [|split].
  - apply Hiff. split; [|split].
    + intros proof Hin. apply elem_of_cons in Hin as [->|Hin];
        [eexists; vm_compute; reflexivity|].
      apply list_elem_of_singleton in Hin as ->. eexists. vm_compute. reflexivity.
    + intros address Hin. apply list_elem_of_singleton in Hin as ->.
      eexists. vm_compute. reflexivity.
    + exists {| validator := "0xAB12" |}, "0xab12", "0xAB12".
      split; [apply elem_of_cons; right; apply list_elem_of_singleton; reflexivity|].
      split; [apply list_elem_of_singleton; reflexivity|].
      split; vm_compute; reflexivity.
  - intros Htrue. apply Hiff in Htrue
      as (_ & _ & proof & address & x & Hproof & Haddr & Hpx & Hax).
    apply list_elem_of_singleton in Hproof as ->.
    apply list_elem_of_singleton in Haddr as ->.
    vm_compute in Hpx, Hax. congruence.
  - intros Htrue. apply Hiff in Htrue as (_ & _ & proof & _ & _ & Hproof & _).
    inversion Hproof.
Defined.

(** An allow-list that is not JSON makes the check fail, and so does a proof
    whose validator is not an address. *)
Lemma check_metadata_proofs_fails_closed_witness :
  check_metadata_proofs Examples.demo_loads_set Examples.demo_checksum
    (Some "0xab12") [{| validator := "0xAB12" |}]
  = (false, [parse_error "not iterable"]) /\
  check_metadata_proofs Examples.demo_loads_set Examples.demo_checksum
    (Some ("[" ++ Examples.quoted "0xab12" ++ "]"))
    [{| validator := "validator" |}]
  = (false, [extraction_error]).
Proof.
  split.
  - apply (proj1 (check_metadata_proofs_fails_closed
                    Examples.demo_loads_set Examples.demo_checksum)).
    + discriminate.
    + vm_compute. reflexivity.
  - apply (proj2 (check_metadata_proofs_fails_closed
                    Examples.demo_loads_set Examples.demo_checksum)
             _ ["0xab12"]).
    + discriminate.
    + vm_compute. reflexivity.
    + discriminate.
    + left. vm_compute. reflexivity.
Defined.

End ProofCheckerSpec.

(** ** Properties of the events monitor *)

Module EventsMonitorSpec.

Import EventsMonitor.

Lemma quiet_refl w : quiet w w.
Proof. repeat split. Qed.

Lemma quiet_trans w1 w2 w3 : quiet w1 w2 -> quiet w2 w3 -> quiet w1 w3.
Proof.
  unfold quiet. intros (?&?&?&?&?) (?&?&?&?&?). repeat split; congruence.
Qed.

#[local] Hint Resolve quiet_refl : core.

Ltac quiet_tac := unfold quiet in *; simpl in *; intuition congruence.

Section checkpoint.

Variable env : Env.

(** *** Reading the checkpoint *)

Lemma wait_for_es_post fuel : forall w,
  match wait_for_es env fuel w with
  | Ret _ w' => quiet w w'
  | Raise e w' => quiet w w' /\ is_ElasticsearchException e = false
  | Diverge => True
  end.
Proof.
  induction fuel as [|fuel IH]; intros w; simpl; [exact I|].
  unfold bind, try_except, es_ping, es_call, bind.
  destruct (es_outcome env (es_calls w)) as [| |e]; simpl.
  - repeat split.
  - match goal with |- context [wait_for_es env fuel ?w1] =>
      specialize (IH w1); destruct (wait_for_es env fuel w1) end; simpl in *; auto.
  - destruct (is_ElasticsearchException e) eqn:He; simpl.
    + match goal with |- context [wait_for_es env fuel ?w1] =>
        specialize (IH w1); destruct (wait_for_es env fuel w1) end; simpl in *; auto.
    + repeat split. exact He.
Qed.

Lemma get_last_processed_block_post fuel w :
  match get_last_processed_block env fuel w with
  | Ret b w' =>
      quiet w w' /\
      (b = defined_block env \/ (es_checkpoint w = Some b /\ 0 <= b))
  | Raise _ _ => False
  | Diverge => True
  end.
Proof.
  unfold get_last_processed_block, try_except, bind.
  pose proof (wait_for_es_post fuel w) as Hw.
  destruct (wait_for_es env fuel w) as [[] w1|e w1|]; simpl; [| |exact I].
  - unfold es_get_last_block, es_call, bind; simpl.
    destruct (es_outcome env (es_calls w1)) as [| |e]; simpl.
    + destruct (es_checkpoint w1) as [b|] eqn:Eb; simpl.
      * split; [quiet_tac|].
        destruct (Z.leb_spec 0 b); [right; split; [quiet_tac|lia] | left; reflexivity].
      * split; [quiet_tac | left; reflexivity].
    + split; [quiet_tac | left; reflexivity].
    + destruct (is_NotFoundError e); simpl;
        (split; [quiet_tac | left; reflexivity]).
  - destruct Hw as (Hw & _).
    destruct (is_NotFoundError e); simpl;
      (split; [quiet_tac | left; reflexivity]).
Qed.

(** The retry loop leaves as soon as a ping is answered: after [k] failed
    pings it has slept [5 * k] seconds. *)
Lemma wait_for_es_retries k : forall fuel w,
  (forall i, (i < k)%nat -> ping_fails (es_outcome env (es_calls w + i)) = true) ->
  es_outcome env (es_calls w + k) = Healthy ->
  (k < fuel)%nat ->
  exists w',
    wait_for_es env fuel w = Ret tt w' /\ quiet w w' /\
    es_calls w' = (es_calls w + S k)%nat /\
    slept w' = slept w + 5 * Z.of_nat k.
Proof.
  induction k as [|k IH]; intros fuel w Hfail Hup Hfuel;
    (destruct fuel as [|fuel]; [lia|]); simpl;
    unfold bind, try_except, es_ping, es_call, bind.
  - rewrite Nat.add_0_r in Hup. rewrite Hup. simpl.
    eexists; split; [reflexivity|]. simpl. repeat split; lia.
  - pose proof (Hfail 0%nat ltac:(lia)) as H0. rewrite Nat.add_0_r in H0.
    destruct (es_outcome env (es_calls w)) as [| |e]; simpl in *; [discriminate| |].
    + match goal with |- context [wait_for_es env fuel ?w1] =>
        destruct (IH fuel w1) as (w' & Hr & Hq & Hc & Hs) end.
      * intros i Hi. simpl. specialize (Hfail (S i) ltac:(lia)).
        replace (es_calls w + S i)%nat with (S (es_calls w + i)) in Hfail by lia.
        exact Hfail.
      * simpl. replace (es_calls w + S k)%nat with (S (es_calls w + k)) in Hup by lia.
        exact Hup.
      * lia.
      * rewrite Hr. eexists; split; [reflexivity|]. simpl in *.
        split; [quiet_tac|]. split; lia.
    + rewrite H0. simpl.
      match goal with |- context [wait_for_es env fuel ?w1] =>
        destruct (IH fuel w1) as (w' & Hr & Hq & Hc & Hs) end.
      * intros i Hi. simpl. specialize (Hfail (S i) ltac:(lia)).
        replace (es_calls w + S i)%nat with (S (es_calls w + i)) in Hfail by lia.
        exact Hfail.
      * simpl. replace (es_calls w + S k)%nat with (S (es_calls w + k)) in Hup by lia.
        exact Hup.
      * lia.
      * rewrite Hr. eexists; split; [reflexivity|]. simpl in *.
        split; [quiet_tac|]. split; lia.
Qed.

Lemma get_last_processed_block_reads k fuel w :
  (forall i, (i < k)%nat -> ping_fails (es_outcome env (es_calls w + i)) = true) ->
  es_outcome env (es_calls w + k) = Healthy ->
  (k < fuel)%nat ->
  exists w',
    get_last_processed_block env fuel w
    = Ret (read_value env (es_outcome env (es_calls w + S k)) (es_checkpoint w)) w' /\
    quiet w w' /\
    es_calls w' = (es_calls w + S (S k))%nat /\
    slept w' = slept w + 5 * Z.of_nat k.
Proof.
  intros Hfail Hup Hfuel.
  destruct (wait_for_es_retries k fuel w Hfail Hup Hfuel) as (w1 & Hr & Hq & Hc & Hs).
  unfold get_last_processed_block, try_except, bind. rewrite Hr. simpl.
  unfold es_get_last_block, es_call, bind. simpl. rewrite Hc.
  assert (Hck : es_checkpoint w1 = es_checkpoint w) by quiet_tac.
  destruct (es_outcome env (es_calls w + S k)) as [| |e]; simpl.
  - rewrite Hck. destruct (es_checkpoint w) as [b|]; simpl;
      (eexists; split; [reflexivity|]; simpl; split; [quiet_tac|split; lia]).
  - eexists; split; [reflexivity|]; simpl; split; [quiet_tac|split; lia].
  - destruct (is_NotFoundError e); simpl;
      (eexists; split; [reflexivity|]; simpl; split; [quiet_tac|split; lia]).
Qed.

(** C8, amended.  [get_last_processed_block] never raises.  Once a ping is
    answered it returns the stored [last_block] when the document is there,
    can be read and holds a non-negative value; it returns the configured
    default block when the document is absent, when its value is negative
    and when the read fails.  Whatever it returns is that default or a
    stored non-negative value, and the store is left as it was. *)
Theorem get_last_processed_block_default fuel w :
  (forall e w', get_last_processed_block env fuel w <> Raise e w') /\
  (forall b w',
      get_last_processed_block env fuel w = Ret b w' ->
      quiet w w' /\
      (b = defined_block env \/ (es_checkpoint w = Some b /\ 0 <= b))) /\
  (forall k,
      (forall i, (i < k)%nat -> ping_fails (es_outcome env (es_calls w + i)) = true) ->
      es_outcome env (es_calls w + k) = Healthy ->
      (k < fuel)%nat ->
      exists w',
        get_last_processed_block env fuel w
        = Ret (match es_outcome env (es_calls w + S k), es_checkpoint w with
               | Healthy, Some b => if 0 <=? b then b else defined_block env
               | Healthy, None => defined_block env
               | _, _ => defined_block env
               end) w' /\
        quiet w w').
Proof.
  split; [|split].
  - intros e w' H. pose proof (get_last_processed_block_post fuel w) as P.
    rewrite H in P. exact P.
  - intros b w' H. pose proof (get_last_processed_block_post fuel w) as P.
    rewrite H in P. exact P.
  - intros k Hfail Hup Hfuel.
    destruct (get_last_processed_block_reads k fuel w Hfail Hup Hfuel)
      as (w' & Hr & Hq & _).
    exists w'. split; [|exact Hq]. rewrite Hr. reflexivity.
Qed.

(** *** Writing the checkpoint *)

Lemma store_last_processed_block_spec fuel block w stored w1 :
  get_last_processed_block env fuel w = Ret stored w1 ->
  (block <= stored ->
   store_last_processed_block env fuel block w = Ret tt w1) /\
  (stored < block -> es_outcome env (es_calls w1) = Healthy ->
   exists w2,
     store_last_processed_block env fuel block w = Ret tt w2 /\
     es_checkpoint w2 = Some block /\
     monitor_is_on w2 = monitor_is_on w /\ es_assets w2 = es_assets w /\
     queries w2 = queries w /\ processed w2 = processed w /\
     es_calls w2 = S (es_calls w1) /\ logs w2 = logs w1 /\ slept w2 = slept w1) /\
  (stored < block -> es_outcome env (es_calls w1) = Fails RequestError ->
   exists w2,
     store_last_processed_block env fuel block w = Ret tt w2 /\ quiet w w2) /\
  (stored < block -> forall e,
   es_outcome env (es_calls w1) = Fails e -> is_RequestError e = false ->
   exists w2,
     store_last_processed_block env fuel block w = Raise e w2 /\ quiet w w2).
Proof.
  intros Hget.
  pose proof (get_last_processed_block_post fuel w) as P. rewrite Hget in P.
  destruct P as (Hq & _).
  unfold store_last_processed_block, bind. rewrite Hget.
  repeat split.
  - intros Hle. apply Z.leb_le in Hle. rewrite Hle. reflexivity.
  - intros Hlt Hup. apply Z.leb_gt in Hlt. rewrite Hlt.
    unfold try_except, es_index_last_block, es_call, bind. rewrite Hup. simpl.
    eexists; split; [reflexivity|]. simpl. quiet_tac.
  - intros Hlt Hup. apply Z.leb_gt in Hlt. rewrite Hlt.
    unfold try_except, es_index_last_block, es_call, bind. rewrite Hup. simpl.
    eexists; split; [reflexivity|]. quiet_tac.
  - intros Hlt e Hup He. apply Z.leb_gt in Hlt. rewrite Hlt.
    unfold try_except, es_index_last_block, es_call, bind. rewrite Hup. simpl.
    unfold raise. rewrite He.
    eexists; split; [reflexivity|]. quiet_tac.
Qed.

(** With a store that answers every call, one unit of fuel is enough. *)
Lemma get_last_processed_block_healthy fuel w :
  healthy env ->
  exists w',
    get_last_processed_block env (S fuel) w
    = Ret (read_value env Healthy (es_checkpoint w)) w' /\
    quiet w w' /\ es_calls w' = S (S (es_calls w)) /\ slept w' = slept w.
Proof.
  intros Hh.
  destruct (get_last_processed_block_reads 0 (S fuel) w) as (w' & Hr & Hq & Hc & Hs).
  - intros i Hi. lia.
  - apply Hh.
  - lia.
  - exists w'. rewrite Hh in Hr. rewrite Hr.
    repeat split; try apply Hq; lia.
Qed.

Lemma store_last_processed_block_healthy fuel block w :
  healthy env ->
  exists w',
    store_last_processed_block env (S fuel) block w = Ret tt w' /\
    es_checkpoint w' =
      (if block <=? read_value env Healthy (es_checkpoint w)
       then es_checkpoint w else Some block) /\
    monitor_is_on w' = monitor_is_on w /\ es_assets w' = es_assets w /\
    queries w' = queries w /\ processed w' = processed w.
Proof.
  intros Hh.
  destruct (get_last_processed_block_healthy fuel w Hh) as (w1 & Hr & Hq & Hc & Hs).
  destruct (store_last_processed_block_spec (S fuel) block w _ w1 Hr)
    as (Hle & Hgt & _).
  destruct (Z.leb_spec block (read_value env Healthy (es_checkpoint w))) as [Hb|Hb].
  - exists w1. rewrite (Hle Hb). quiet_tac.
  - destruct (Hgt Hb (Hh _)) as (w2 & Hs2 & Hck & Hrest).
    exists w2. rewrite Hs2. intuition.
Qed.

(** [store_last_processed_block] first reads the checkpoint
    back; it writes nothing when the new block is not above the value read
    and, when it is above and the store accepts the write, the document
    holds the new block.  With a store that answers every call, storing a
    non-negative [x] and then some [y <= x] leaves the document as the first
    call left it: at [x] when [x] was above the value read before the first
    call, and as it was before otherwise. *)
Theorem store_last_processed_block_monotone fuel w x y :
  (forall stored w1,
      get_last_processed_block env fuel w = Ret stored w1 ->
      (x <= stored -> store_last_processed_block env fuel x w = Ret tt w1) /\
      (stored < x -> es_outcome env (es_calls w1) = Healthy ->
       exists w2,
         store_last_processed_block env fuel x w = Ret tt w2 /\
         es_checkpoint w2 = Some x)) /\
  (healthy env -> fuel <> 0%nat -> 0 <= x -> y <= x ->
   exists w1 w2,
     store_last_processed_block env fuel x w = Ret tt w1 /\
     store_last_processed_block env fuel y w1 = Ret tt w2 /\
     es_checkpoint w1 =
       (if x <=? read_value env Healthy (es_checkpoint w)
        then es_checkpoint w else Some x) /\
     es_checkpoint w2 = es_checkpoint w1 /\
     read_value env Healthy (es_checkpoint w2)
     = Z.max (read_value env Healthy (es_checkpoint w)) x).
Proof.
  split.
  - intros stored w1 Hget.
    destruct (store_last_processed_block_spec fuel x w stored w1 Hget)
      as (Hle & Hgt & _).
    split; [exact Hle|]. intros Hlt Hup.
    destruct (Hgt Hlt Hup) as (w2 & Hs & Hck & _). eauto.
  - intros Hh Hfuel Hx Hyx. destruct fuel as [|fuel]; [contradiction|].
    destruct (store_last_processed_block_healthy fuel x w Hh)
      as (w1 & Hs1 & Hck1 & _).
    destruct (store_last_processed_block_healthy fuel y w1 Hh)
      as (w2 & Hs2 & Hck2 & _).
    exists w1, w2. split; [exact Hs1|]. split; [exact Hs2|]. split; [exact Hck1|].
    assert (Hread : read_value env Healthy (es_checkpoint w1)
                    = Z.max (read_value env Healthy (es_checkpoint w)) x).
    { rewrite Hck1.
      destruct (Z.leb_spec x (read_value env Healthy (es_checkpoint w))) as [Hb|Hb].
      - lia.
      - change (read_value env Healthy (Some x))
          with (if 0 <=? x then x else defined_block env).
        rewrite (proj2 (Z.leb_le 0 x) Hx). lia. }
    assert (Hnoop : es_checkpoint w2 = es_checkpoint w1).
    { rewrite Hck2.
      destruct (Z.leb_spec y (read_value env Healthy (es_checkpoint w1))); [reflexivity|lia]. }
    split; [exact Hnoop|]. rewrite Hnoop. exact Hread.
Qed.

(** *** Clean start *)

Lemma delete_assets_healthy (doomed : list Asset) : forall w,
  healthy env ->
  exists w',
    for_each doomed
      (fun asset =>
         try_except (es_delete env (id asset)) is_Exception
           (fun e => logger ERROR ("Delete asset failed: " ++ exn_str e))) w
    = Ret tt w' /\
    es_assets w' =
      List.filter (fun a => negb (bool_decide (id a ∈ id <$> doomed))) (es_assets w) /\
    monitor_is_on w' = monitor_is_on w /\ es_checkpoint w' = es_checkpoint w /\
    queries w' = queries w /\ processed w' = processed w.
Proof.
  intros w Hh. revert w.
  induction doomed as [|a doomed IH]; intros w; simpl.
  - exists w. split; [reflexivity|]. split; [|tauto].
    induction (es_assets w) as [|b l IHl]; simpl; [reflexivity|].
    congruence.
  - unfold bind at 1. unfold try_except, es_delete, es_call, bind. rewrite Hh. simpl.
    assert (Hfilter : forall l : list Asset,
      List.filter (fun b => negb (bool_decide (id b ∈ id <$> doomed)))
        (List.filter (fun b => negb (bool_decide (id b = id a))) l)
      = List.filter (fun b => negb (bool_decide (id b ∈ id a :: (id <$> doomed)))) l).
    { induction l as [|b l IHl]; simpl; [reflexivity|].
      destruct (decide (id b = id a)) as [E|E].
      - rewrite (bool_decide_eq_true_2 _ E). simpl.
        rewrite (bool_decide_eq_true_2 (id b ∈ id a :: _)) by (rewrite E; left).
        simpl. exact IHl.
      - rewrite (bool_decide_eq_false_2 _ E). simpl.
        destruct (decide (id b ∈ id <$> doomed)) as [I|I].
        + rewrite (bool_decide_eq_true_2 _ I).
          rewrite (bool_decide_eq_true_2 (id b ∈ id a :: _)) by (right; exact I).
          simpl. exact IHl.
        + rewrite (bool_decide_eq_false_2 _ I).
          rewrite (bool_decide_eq_false_2 (id b ∈ id a :: _)).
          * simpl. congruence.
          * intros [?|?]%elem_of_cons; contradiction. }
    destruct (existsb _ (es_assets w)) eqn:Hex; simpl.
    + match goal with |- context [for_each doomed ?f ?w1] =>
        destruct (IH w1) as (w' & Hr & Ha & Hrest) end.
      exists w'. split; [exact Hr|]. split; [|simpl in Hrest; tauto].
      rewrite Ha. simpl. apply Hfilter.
    + match goal with |- context [for_each doomed ?f ?w1] =>
        destruct (IH w1) as (w' & Hr & Ha & Hrest) end.
      exists w'. split; [exact Hr|]. split; [|simpl in Hrest; tauto].
      rewrite Ha. simpl. rewrite <- Hfilter. f_equal.
      clear -Hex. induction (es_assets w) as [|b l IHl]; simpl in *; [reflexivity|].
      apply orb_false_iff in Hex as [Hb Hl]. rewrite Hb. simpl. f_equal. auto.
Qed.

(** With a store that answers every call, [reset_chain] deletes every
    document of the chain, and moves the checkpoint to the start block only
    when the start block is above the value read back. *)
Lemma reset_chain_healthy fuel w :
  healthy env ->
  exists w',
    reset_chain env (S fuel) w = Ret tt w' /\
    es_assets w' =
      List.filter
        (fun a => negb (bool_decide (id a ∈ id <$> List.filter (in_chain env) (es_assets w))))
        (es_assets w) /\
    es_checkpoint w' =
      (if start_block env <=? read_value env Healthy (es_checkpoint w)
       then es_checkpoint w else Some (start_block env)).
Proof.
  intros Hh. unfold reset_chain, get_assets_in_chain.
  unfold bind at 1 2 3. unfold es_search, es_call, bind. rewrite !Hh. simpl.
  rewrite firstn_all.
  match goal with |- context [for_each ?d ?f ?w1] =>
    destruct (delete_assets_healthy d w1 Hh) as (w2 & Hr & Ha & Hf & Hc & Hq & Hp) end.
  rewrite Hr.
  destruct (store_last_processed_block_healthy fuel (start_block env) w2 Hh)
    as (w3 & Hs & Hck & Hf3 & Ha3 & _).
  exists w3. split; [exact Hs|]. split.
  - rewrite Ha3, Ha. reflexivity.
  - rewrite Hck, Hc. reflexivity.
Qed.

End checkpoint.

(** *** The no-op guard of [process_current_blocks] *)

Section guard.

Variable env : Env.

(** When the reported head is falsy, is not an integer, or is not
    above the value just read for the checkpoint, [process_current_blocks] returns in the
    state the read left: nothing was scanned, dispatched or written. *)
Theorem process_current_blocks_noop fuel w last_block w1 head :
  get_last_processed_block env fuel w = Ret last_block w1 ->
  block_number env = inr head ->
  truthy head = false \/ as_int head = None \/
    (exists n, as_int head = Some n /\ n <= last_block) ->
  process_current_blocks env fuel w = Ret tt w1 /\
  quiet w w1 /\ queries w1 = queries w /\ es_checkpoint w1 = es_checkpoint w.
Proof.
  intros Hget Hhead Hguard.
  pose proof (get_last_processed_block_post env fuel w) as P. rewrite Hget in P.
  destruct P as (Hq & _).
  split; [|split; [exact Hq|quiet_tac]].
  unfold process_current_blocks, bind. rewrite Hget, Hhead. simpl.
  destruct Hguard as [Hf|[Hn|(n & Hn & Hle)]].
  - rewrite Hf. reflexivity.
  - destruct (truthy head); [|reflexivity]. simpl. rewrite Hn. reflexivity.
  - destruct (truthy head); [|reflexivity]. simpl. rewrite Hn.
    apply Z.leb_le in Hle. rewrite Hle. reflexivity.
Qed.

End guard.

(** *** The block-range scanner *)

Section scanner.

Variable env : Env.

Lemma chunks_step from_block to_block chunk_size :
  1 <= chunk_size -> from_block <= to_block ->
  (chunks (Z.min (from_block + chunk_size - 1) to_block + 1) to_block chunk_size
   < chunks from_block to_block chunk_size)%nat.
Proof.
  intros Hc Hle. unfold chunks.
  destruct (Z.le_gt_cases (from_block + chunk_size - 1) to_block) as [Hfull|Hlast].
  - rewrite Z.min_l by lia.
    replace (to_block - from_block + chunk_size)
      with ((to_block - (from_block + chunk_size - 1 + 1) + chunk_size) + 1 * chunk_size)
      by lia.
    rewrite Z.div_add by lia.
    assert (0 <= (to_block - (from_block + chunk_size - 1 + 1) + chunk_size) `div` chunk_size)
      by (apply Z.div_pos; lia).
    lia.
  - rewrite Z.min_r by lia.
    replace (to_block - (to_block + 1) + chunk_size) with (chunk_size - 1) by lia.
    rewrite Z.div_small by lia.
    assert (1 <= (to_block - from_block + chunk_size) `div` chunk_size)
      by (apply Z.div_le_lower_bound; lia).
    lia.
Qed.

Lemma scan_ranges_partition to_block chunk_size : forall fuel _from,
  1 <= chunk_size -> _from <= to_block + 1 ->
  (chunks _from to_block chunk_size <= fuel)%nat ->
  let rs := scan_ranges fuel to_block chunk_size _from
              (Z.min (_from + chunk_size - 1) to_block) in
  concat ((fun r => seqZ r.1 (r.2 - r.1 + 1)) <$> rs)
  = seqZ _from (to_block + 1 - _from) /\
  Forall (fun r => 1 <= r.2 - r.1 + 1 <= chunk_size) rs /\
  (forall i r, rs !! i = Some r -> (S i < length rs)%nat ->
               r.2 - r.1 + 1 = chunk_size) /\
  (to_block < _from -> rs = []).
Proof.
  induction fuel as [|fuel IH]; intros _from Hc Hle Hfuel; simpl.
  - assert (_from = to_block + 1) as ->.
    { destruct (Z.le_gt_cases _from to_block) as [Hin|Hout]; [|lia].
      pose proof (chunks_step _from to_block chunk_size Hc Hin). lia. }
    rewrite (proj2 (Z.leb_gt _ _)) by lia.
    rewrite seqZ_nil by lia. repeat split; auto. intros i r Hi. inversion Hi.
  - destruct (Z.leb_spec _from to_block) as [Hin|Hout].
    + pose proof (chunks_step _from to_block chunk_size Hc Hin) as Hstep.
      set (_to := Z.min (_from + chunk_size - 1) to_block) in *.
      assert (H_to : _from <= _to <= to_block) by (unfold _to; lia).
      destruct (IH (_to + 1) Hc ltac:(lia) ltac:(lia)) as (Hcat & Hall & Hfull & Hnil).
      cbv zeta in *. set (rs := scan_ranges fuel to_block chunk_size (_to + 1) _) in *.
      repeat split.
      * rewrite fmap_cons. cbn [concat fst snd]. rewrite Hcat.
        replace (to_block + 1 - (_to + 1)) with (to_block - _to) by lia.
        replace (to_block + 1 - _from) with ((_to - _from + 1) + (to_block - _to)) by lia.
        rewrite (seqZ_app _from (_to - _from + 1) (to_block - _to)) by lia.
        replace (_from + (_to - _from + 1)) with (_to + 1) by lia. reflexivity.
      * constructor; [simpl; unfold _to; lia | exact Hall].
      * intros i r Hi Hlen. destruct i as [|i]; simpl in *.
        -- inversion Hi; subst r. simpl.
           assert (to_block >= _to + 1).
           { destruct (Z.lt_ge_cases to_block (_to + 1)) as [Hlt|Hge]; [|lia].
             rewrite (Hnil Hlt) in Hlen. simpl in Hlen. lia. }
           unfold _to. lia.
        -- apply (Hfull i r Hi). lia.
      * intros Habs. lia.
    + rewrite seqZ_nil by lia. repeat split; auto. intros i r Hi. inversion Hi.
Qed.

(** With a ledger node that answers and enough fuel the loop of
    [get_event_logs] runs to its end, calling [get_logs] once per range of
    [scan_ranges] and accumulating what the calls return. *)
Lemma get_event_logs_loop_runs h from_block to_block chunk_size :
  ledger_up env -> 1 <= chunk_size ->
  forall fuel _from all_logs w,
    _from <= to_block + 1 ->
    (chunks _from to_block chunk_size <= fuel)%nat ->
    let _to := Z.min (_from + chunk_size - 1) to_block in
    let qs := (fun r => {| topics := [h]; fromBlock := r.1; toBlock := r.2 |})
                <$> scan_ranges fuel to_block chunk_size _from _to in
    exists w',
      get_event_logs_loop env fuel h from_block to_block chunk_size _from _to all_logs w
      = Ret (all_logs ++ concat (logs_of env <$> qs))%list w' /\
      queries w' = (queries w ++ qs)%list /\ scanned w w'.
Proof.
  intros Hup Hc. induction fuel as [|fuel IH]; intros _from all_logs w Hle Hfuel; simpl.
  - assert (_from = to_block + 1) as ->.
    { destruct (Z.le_gt_cases _from to_block) as [Hin|Hout]; [|lia].
      pose proof (chunks_step _from to_block chunk_size Hc Hin). lia. }
    rewrite (proj2 (Z.leb_gt _ _)) by lia. simpl.
    exists w. rewrite !app_nil_r. repeat split.
  - destruct (Z.leb_spec _from to_block) as [Hin|Hout].
    + pose proof (chunks_step _from to_block chunk_size Hc Hin) as Hstep.
      set (_to := Z.min (_from + chunk_size - 1) to_block) in *.
      assert (H_to : _from <= _to <= to_block) by (unfold _to; lia).
      set (q := {| topics := [h]; fromBlock := _from; toBlock := _to |}).
      destruct (Hup q) as (found & Hfound).
      unfold bind at 1. unfold web3_get_logs, bind, record_query. simpl.
      fold q. rewrite Hfound. simpl.
      assert (Hlogs : logs_of env q = found) by (unfold logs_of; rewrite Hfound; reflexivity).
      destruct ((_from - from_block) `mod` 1000 =? 0); simpl;
        match goal with
        | |- context [get_event_logs_loop env fuel _ _ _ _ _ _ ?acc ?w2] =>
            destruct (IH (_to + 1) acc w2 ltac:(lia) ltac:(lia)) as (w' & Hr & Hq & Hs)
        end;
        cbv zeta in Hr, Hq; rewrite Hr; exists w';
        (split; [|split];
         [ rewrite Hlogs, <- app_assoc; reflexivity
         | rewrite Hq; simpl; rewrite <- app_assoc; reflexivity
         | unfold scanned in *; simpl in *; intuition congruence ]).
    + simpl. exists w. rewrite !app_nil_r. repeat split.
Qed.

Lemma get_event_logs_runs fuel event_name from_block to_block chunk_size w :
  ledger_up env -> 1 <= chunk_size -> from_block <= to_block + 1 ->
  (chunks from_block to_block chunk_size <= fuel)%nat ->
  let qs := query_for env event_name
              <$> scan_ranges fuel to_block chunk_size from_block
                    (Z.min (from_block + chunk_size - 1) to_block) in
  exists w',
    get_event_logs env fuel event_name from_block to_block chunk_size w
    = Ret (concat (logs_of env <$> qs)) w' /\
    queries w' = (queries w ++ qs)%list /\ scanned w w'.
Proof.
  intros Hup Hc Hle Hfuel. unfold get_event_logs.
  rewrite bool_decide_eq_true_2 by (destruct event_name; set_solver).
  simpl. unfold bind at 1. unfold logger at 1.
  match goal with |- context [bind (get_event_logs_loop env fuel ?h _ _ _ _ _ _) _ ?w1] =>
    destruct (get_event_logs_loop_runs h from_block to_block chunk_size Hup Hc
                fuel from_block [] w1 Hle Hfuel) as (w' & Hr & Hq & Hs) end.
  cbv zeta in Hr, Hq. unfold bind. rewrite Hr. simpl.
  eexists. split; [reflexivity|]. simpl. split.
  - rewrite Hq. reflexivity.
  - unfold scanned in *. simpl in *. intuition congruence.
Qed.

(** C4.  For [from_block <= to_block] and a chunk size of at least one,
    [get_event_logs] returns, and the queries it issued carry the signature
    hash of the event, enumerate the blocks of [[from_block, to_block]] once
    each and in order, hold between one and [chunk_size] blocks, and hold
    exactly [chunk_size] blocks except possibly the last. *)
Theorem get_event_logs_partition fuel event_name from_block to_block chunk_size w :
  from_block <= to_block -> 1 <= chunk_size ->
  ledger_up env ->
  (chunks from_block to_block chunk_size <= fuel)%nat ->
  exists found w' issued,
    get_event_logs env fuel event_name from_block to_block chunk_size w
    = Ret found w' /\
    queries w' = (queries w ++ issued)%list /\
    Forall (fun q => topics q = [keccak env (hash_text event_name)]) issued /\
    concat (blocks_queried <$> issued) = seqZ from_block (to_block - from_block + 1) /\
    Forall (fun q => 1 <= width q <= chunk_size) issued /\
    (forall i q, issued !! i = Some q -> (S i < length issued)%nat ->
                 width q = chunk_size).
Proof.
  intros Hft Hc Hup Hfuel.
  destruct (get_event_logs_runs fuel event_name from_block to_block chunk_size w
              Hup Hc ltac:(lia) Hfuel) as (w' & Hr & Hq & _).
  destruct (scan_ranges_partition to_block chunk_size fuel from_block Hc ltac:(lia) Hfuel)
    as (Hcat & Hall & Hfull & _).
  cbv zeta in *.
  set (rs := scan_ranges fuel to_block chunk_size from_block _) in *.
  eexists _, w', (query_for env event_name <$> rs).
  split; [exact Hr|]. split; [exact Hq|]. repeat split.
  - apply Forall_fmap. apply Forall_forall. intros r _. reflexivity.
  - rewrite <- list_fmap_compose.
    replace (to_block - from_block + 1) with (to_block + 1 - from_block) by lia.
    rewrite <- Hcat. reflexivity.
  - apply Forall_fmap. eapply Forall_impl; [exact Hall|].
    intros r Hr'. exact Hr'.
  - intros i q Hi Hlen. rewrite list_lookup_fmap in Hi.
    destruct (rs !! i) as [r|] eqn:Er; [|discriminate].
    inversion Hi; subst q. rewrite length_fmap in Hlen.
    exact (Hfull i r Er Hlen).
Qed.

End scanner.

(** *** The dispatcher *)

Section dispatcher.

Variable env : Env.

(** The body of the loop of [handle_regular_event_processor]. *)
Local Abbreviation regular_body event_name processor :=
  (fun event =>
     let* dt_contract := lift (toChecksumAddress env (address event)) in
     let* receipt := lift (get_transaction_receipt env (transactionHash event)) in
     let* event_object :=
       first_of (processReceipt env event_name dt_contract receipt) in
     try_except
       (let* metadata_proofs := lift (processReceipt_proofs env dt_contract receipt) in
        lift (regular_process env processor event_object dt_contract
                (receipt_from receipt) metadata_proofs) ;;
        record_dispatch {| dispatch_kind := event_name; dispatch_event := event |})
       is_Exception
       (fun e =>
          logger EXCEPTION ("Error processing event: " ++ exn_str e
                            ++ " event=" ++ transactionHash event))).

Lemma for_each_app {A} (xs ys : list A) (body : A -> M unit) w :
  for_each (xs ++ ys) body w = (for_each xs body ;; for_each ys body) w.
Proof.
  revert w. induction xs as [|x xs IH]; intros w; simpl; [reflexivity|].
  unfold bind. destruct (body x w) as [[] w'|e w'|]; [|reflexivity..].
  rewrite IH. reflexivity.
Qed.

(** Logs that pass the stages before the [try] block never stop the loop. *)
Lemma dispatch_decodable event_name processor events : forall w1,
  Forall (fun event => is_Some (decodes env event_name event)) events ->
  exists w2,
    for_each events (regular_body event_name processor) w1 = Ret tt w2 /\
    processed w2
    = (processed w1 ++ omap (dispatched_of env event_name processor) events)%list /\
    logs w2 = (logs w1 ++ omap (logged_of env event_name processor) events)%list /\
    dispatched w1 w2.
Proof.
  set (body := regular_body event_name processor).
  induction events as [|event events IH]; intros w1 Hdec.
  - exists w1. simpl. rewrite !app_nil_r. unfold dispatched. tauto.
  - apply Forall_cons in Hdec as [[d Hd] Hdec].
    specialize (fun w => IH w Hdec).
    cbn [omap list_omap]. unfold dispatched_of at 1, logged_of at 1. rewrite Hd.
    cbn [fmap option_fmap option_map].
    unfold decodes in Hd.
    destruct (toChecksumAddress env (address event)) as [|dt_contract] eqn:Ec; [discriminate|].
    destruct (get_transaction_receipt env (transactionHash event)) as [|receipt] eqn:Er;
      [discriminate|].
    destruct (processReceipt env event_name dt_contract receipt) as [|event_object ?] eqn:Eo;
      [discriminate|].
    inversion Hd; subst d; clear Hd.
    cbn [for_each]. unfold bind at 1. unfold body at 1.
    unfold bind, try_except, lift, first_of. rewrite Ec. cbn [ret raise].
    rewrite Er. cbn [ret raise]. rewrite Eo. cbn [ret raise].
    unfold guarded at 1 2. cbn [fst snd].
    destruct (processReceipt_proofs env dt_contract receipt) as [e|metadata_proofs];
      cbn [ret raise is_Exception].
    + unfold logger at 1.
      match goal with |- context [for_each events body ?w2] =>
        destruct (IH w2) as (w3 & Hrun & Hp & Hl & Hs) end.
      exists w3. cbn in Hp, Hl. rewrite Hrun, Hp, Hl, <- app_assoc.
      unfold dispatched, exception_entry in *. cbn in *. tauto.
    + destruct (regular_process env processor event_object dt_contract
                  (receipt_from receipt) metadata_proofs) as [e|[]];
        cbn [ret raise is_Exception].
      * unfold logger at 1.
        match goal with |- context [for_each events body ?w2] =>
          destruct (IH w2) as (w3 & Hrun & Hp & Hl & Hs) end.
        exists w3. cbn in Hp, Hl. rewrite Hrun, Hp, Hl, <- app_assoc.
        unfold dispatched, exception_entry in *. cbn in *. tauto.
      * unfold record_dispatch at 1.
        match goal with |- context [for_each events body ?w2] =>
          destruct (IH w2) as (w3 & Hrun & Hp & Hl & Hs) end.
        exists w3. cbn in Hp, Hl. rewrite Hrun, Hp, Hl, <- app_assoc.
        unfold dispatched in *. cbn in *. tauto.
Qed.

(** A log that fails one of these stages raises out of the body, before
    anything is logged or dispatched for it. *)
Lemma dispatch_undecodable event_name processor event w :
  decodes env event_name event = None ->
  exists e, regular_body event_name processor event w = Raise e w.
Proof.
  intros Hnone. unfold decodes in Hnone. unfold bind, lift, first_of.
  destruct (toChecksumAddress env (address event)) as [e|dt_contract];
    [exists e; reflexivity|]. cbn [ret raise].
  destruct (get_transaction_receipt env (transactionHash event)) as [e|receipt];
    [exists e; reflexivity|]. cbn [ret raise].
  destruct (processReceipt env event_name dt_contract receipt) as [|event_object ?];
    [exists IndexError; reflexivity|discriminate].
Qed.

(** In [handle_regular_event_processor] the [try] block
    isolates the decoding of the proofs, the construction of the processor
    and [process()].  When the contract, the receipt and the event of every
    log of the batch can be obtained, the handler returns normally: the logs
    whose guarded stages succeed are dispatched, in order, and each of the
    others leaves one entry of level [EXCEPTION] in the log.  When one of
    the three cannot be obtained for some log, the exception leaves the
    handler: the logs before it were handled as above, the logs after it
    are not looked at. *)
Theorem handle_regular_event_processor_isolation
    fuel event_name processor from_block to_block w w1 :
  (forall events,
      get_event_logs env fuel event_name from_block to_block 1000 w = Ret events w1 ->
      Forall (fun event => is_Some (decodes env event_name event)) events ->
      exists w2,
        handle_regular_event_processor env fuel event_name processor from_block to_block w
        = Ret tt w2 /\
        processed w2
        = (processed w1 ++ omap (dispatched_of env event_name processor) events)%list /\
        logs w2 = (logs w1 ++ omap (logged_of env event_name processor) events)%list /\
        dispatched w1 w2) /\
  (forall before event after,
      get_event_logs env fuel event_name from_block to_block 1000 w
      = Ret (before ++ event :: after)%list w1 ->
      Forall (fun event => is_Some (decodes env event_name event)) before ->
      decodes env event_name event = None ->
      exists e w2,
        handle_regular_event_processor env fuel event_name processor from_block to_block w
        = Raise e w2 /\
        processed w2
        = (processed w1 ++ omap (dispatched_of env event_name processor) before)%list /\
        logs w2 = (logs w1 ++ omap (logged_of env event_name processor) before)%list /\
        dispatched w1 w2).
Proof.
  split.
  - intros events Hget Hdec.
    unfold handle_regular_event_processor, bind at 1. rewrite Hget.
    apply dispatch_decodable. exact Hdec.
  - intros before event after Hget Hdec Hnone.
    unfold handle_regular_event_processor, bind at 1. rewrite Hget.
    destruct (dispatch_decodable event_name processor before w1 Hdec)
      as (w2 & Hrun & Hp & Hl & Hd).
    destruct (dispatch_undecodable event_name processor event w2 Hnone) as (e & He).
    exists e, w2. rewrite for_each_app. unfold bind at 1. rewrite Hrun.
    cbn [for_each]. unfold bind at 1. rewrite He. auto.
Qed.

End dispatcher.

(** *** A whole scan on a ledger without logs *)

Section pipeline.

Variable env : Env.
Hypothesis Hempty : no_logs env.

Lemma no_logs_ledger_up : ledger_up env.
Proof. intros q. exists []. apply Hempty. Qed.

Lemma get_event_logs_no_logs fuel event_name from_block to_block w :
  from_block <= to_block + 1 ->
  (chunks from_block to_block 1000 <= fuel)%nat ->
  exists w',
    get_event_logs env fuel event_name from_block to_block 1000 w = Ret [] w' /\
    queries w'
    = (queries w
       ++ (query_for env event_name
             <$> scan_ranges fuel to_block 1000 from_block
                   (Z.min (from_block + 1000 - 1) to_block)))%list /\
    scanned w w'.
Proof.
  intros Hle Hfuel.
  destruct (get_event_logs_runs env fuel event_name from_block to_block 1000 w
              no_logs_ledger_up ltac:(lia) Hle Hfuel) as (w' & Hr & Hq & Hs).
  cbv zeta in *. exists w'. split; [|split; assumption].
  rewrite Hr. f_equal.
  assert (Hnil : forall qs : list FilterParams, concat (logs_of env <$> qs) = []).
  { induction qs as [|q qs IH]; [reflexivity|].
    rewrite fmap_cons. cbn [concat]. rewrite IH. unfold logs_of. rewrite Hempty.
    reflexivity. }
  apply Hnil.
Qed.

Lemma handle_regular_event_processor_no_logs
    fuel event_name processor from_block to_block w :
  from_block <= to_block + 1 ->
  (chunks from_block to_block 1000 <= fuel)%nat ->
  exists w',
    handle_regular_event_processor env fuel event_name processor from_block to_block w
    = Ret tt w' /\
    queries w'
    = (queries w
       ++ (query_for env event_name
             <$> scan_ranges fuel to_block 1000 from_block
                   (Z.min (from_block + 1000 - 1) to_block)))%list /\
    scanned w w'.
Proof.
  intros Hle Hfuel.
  destruct (get_event_logs_no_logs fuel event_name from_block to_block w Hle Hfuel)
    as (w' & Hr & Hq & Hs).
  exists w'. unfold handle_regular_event_processor, bind. rewrite Hr. simpl. auto.
Qed.

Lemma handle_token_uri_update_no_logs fuel from_block to_block w :
  from_block <= to_block + 1 ->
  (chunks from_block to_block 1000 <= fuel)%nat ->
  exists w',
    handle_token_uri_update env fuel from_block to_block w = Ret tt w' /\
    queries w'
    = (queries w
       ++ (query_for env EVENT_TOKEN_URI_UPDATE
             <$> scan_ranges fuel to_block 1000 from_block
                   (Z.min (from_block + 1000 - 1) to_block)))%list /\
    scanned w w'.
Proof.
  intros Hle Hfuel.
  destruct (get_event_logs_no_logs fuel EVENT_TOKEN_URI_UPDATE from_block to_block w
              Hle Hfuel) as (w' & Hr & Hq & Hs).
  exists w'. unfold handle_token_uri_update, bind. rewrite Hr. simpl. auto.
Qed.

Lemma scanned_trans w1 w2 w3 : scanned w1 w2 -> scanned w2 w3 -> scanned w1 w3.
Proof. unfold scanned. intuition congruence. Qed.

Lemma handle_price_change_no_logs fuel from_block to_block w fre dispenser :
  get_fre env = inr fre -> get_dispenser env = inr dispenser ->
  from_block <= to_block + 1 ->
  (chunks from_block to_block 1000 <= fuel)%nat ->
  exists w',
    handle_price_change env fuel from_block to_block w = Ret tt w' /\
    queries w'
    = (queries w
       ++ concat
            ((fun event_name =>
                query_for env event_name
                  <$> scan_ranges fuel to_block 1000 from_block
                        (Z.min (from_block + 1000 - 1) to_block))
               <$> price_change_events))%list /\
    scanned w w'.
Proof.
  intros Hfre Hdisp Hle Hfuel.
  unfold handle_price_change, bind at 1. rewrite Hfre. cbn [lift ret].
  unfold bind at 1. rewrite Hdisp. cbn [lift ret].
  unfold price_change_events. cbn [for_each].
  destruct (get_event_logs_no_logs fuel EVENT_ORDER_STARTED from_block to_block w
              Hle Hfuel) as (w1 & Hr1 & Hq1 & Hs1).
  destruct (get_event_logs_no_logs fuel EVENT_EXCHANGE_CREATED from_block to_block w1
              Hle Hfuel) as (w2 & Hr2 & Hq2 & Hs2).
  destruct (get_event_logs_no_logs fuel EVENT_EXCHANGE_RATE_CHANGED from_block to_block w2
              Hle Hfuel) as (w3 & Hr3 & Hq3 & Hs3).
  destruct (get_event_logs_no_logs fuel EVENT_DISPENSER_CREATED from_block to_block w3
              Hle Hfuel) as (w4 & Hr4 & Hq4 & Hs4).
  exists w4. unfold bind. rewrite Hr1. cbn [for_each ret]. rewrite Hr2.
  cbn [for_each ret]. rewrite Hr3. cbn [for_each ret]. rewrite Hr4. cbn [for_each ret].
  split; [reflexivity|]. split.
  - rewrite Hq4, Hq3, Hq2, Hq1. cbn [fmap list_fmap concat].
    rewrite app_nil_r, <- !app_assoc. reflexivity.
  - eauto using scanned_trans.
Qed.

Lemma process_block_range_no_logs fuel from_block to_block w fre dispenser :
  healthy env ->
  get_fre env = inr fre -> get_dispenser env = inr dispenser ->
  from_block <= to_block ->
  (chunks from_block to_block 1000 <= fuel)%nat ->
  exists w',
    process_block_range env fuel from_block to_block w = Ret tt w' /\
    queries w' = (queries w ++ scan_of env fuel from_block to_block)%list /\
    es_checkpoint w'
    = (if to_block <=? read_value env Healthy (es_checkpoint w)
       then es_checkpoint w else Some to_block) /\
    processed w' = processed w /\
    monitor_is_on w' = monitor_is_on w /\
    es_assets w' = es_assets w.
Proof.
  intros Hh Hfre Hdisp Hle Hfuel.
  assert (Hpos : (0 < chunks from_block to_block 1000)%nat).
  { pose proof (chunks_step from_block to_block 1000 ltac:(lia) Hle). lia. }
  destruct fuel as [|fuel']; [lia|]. set (fuel := S fuel') in *.
  unfold process_block_range, bind at 1, logger at 1.
  rewrite (proj2 (Z.ltb_ge _ _)) by lia.
  unfold event_processors. cbn [for_each fst snd].
  match goal with |- context [bind _ _ ?w0] =>
    destruct (handle_regular_event_processor_no_logs fuel EVENT_METADATA_CREATED
                MetadataCreatedProcessor from_block to_block w0 ltac:(lia) Hfuel)
      as (w1 & Hr1 & Hq1 & Hs1) end.
  destruct (handle_regular_event_processor_no_logs fuel EVENT_METADATA_UPDATED
              MetadataUpdatedProcessor from_block to_block w1 ltac:(lia) Hfuel)
    as (w2 & Hr2 & Hq2 & Hs2).
  destruct (handle_regular_event_processor_no_logs fuel EVENT_METADATA_STATE
              MetadataStateProcessor from_block to_block w2 ltac:(lia) Hfuel)
    as (w3 & Hr3 & Hq3 & Hs3).
  destruct (handle_price_change_no_logs fuel from_block to_block w3 fre dispenser
              Hfre Hdisp ltac:(lia) Hfuel) as (w4 & Hr4 & Hq4 & Hs4).
  destruct (handle_token_uri_update_no_logs fuel from_block to_block w4 ltac:(lia) Hfuel)
    as (w5 & Hr5 & Hq5 & Hs5).
  destruct (store_last_processed_block_healthy env fuel' to_block w5 Hh)
    as (w6 & Hr6 & Hck & Hf6 & Ha6 & Hq6 & Hp6).
  exists w6. unfold bind. rewrite Hr1. cbn [ret]. rewrite Hr2. cbn [ret].
  rewrite Hr3. cbn [ret]. rewrite Hr4, Hr5. fold fuel in Hr6. rewrite Hr6.
  split; [reflexivity|].
  unfold scanned in *. cbn in *.
  assert (Hckw : es_checkpoint w5 = es_checkpoint w) by intuition congruence.
  split; [|split; [|intuition congruence]].
  - rewrite Hq6, Hq5, Hq4, Hq3, Hq2, Hq1. unfold scan_of, dispatch_order, price_change_events.
    cbn [fmap list_fmap concat]. rewrite !app_nil_r, <- !app_assoc. reflexivity.
  - rewrite Hck, Hckw. reflexivity.
Qed.

End pipeline.

(** *** A whole scan that runs to its end *)

Section returned.

Variable env : Env.
Hypothesis Hup : ledger_up env.

Lemma dispatched_refl w : dispatched w w.
Proof. unfold dispatched. tauto. Qed.

Lemma dispatched_trans w1 w2 w3 : dispatched w1 w2 -> dispatched w2 w3 -> dispatched w1 w3.
Proof. unfold dispatched. intuition congruence. Qed.

Lemma bind_ret_inv {A B} (m : M A) (k : A -> M B) w b w' :
  bind m k w = Ret b w' -> exists a w1, m w = Ret a w1 /\ k a w1 = Ret b w'.
Proof.
  unfold bind. destruct (m w) as [a w1|e w1|]; [eauto|discriminate..].
Qed.

(** A loop whose body only logs and dispatches only logs and dispatches. *)
Lemma for_each_dispatched {A} (body : A -> M unit) :
  (forall x w,
      match body x w with
      | Ret _ w' | Raise _ w' => dispatched w w'
      | Diverge => True
      end) ->
  forall xs w,
    match for_each xs body w with
    | Ret _ w' | Raise _ w' => dispatched w w'
    | Diverge => True
    end.
Proof.
  intros Hbody. induction xs as [|x xs IH]; intros w; simpl.
  - apply dispatched_refl.
  - unfold bind. pose proof (Hbody x w) as Hx.
    destruct (body x w) as [[] w1|e w1|]; [|exact Hx|exact I].
    specialize (IH w1).
    destruct (for_each xs body w1) as [[] w2|e w2|]; [| |exact I];
      eapply dispatched_trans; eassumption.
Qed.

Ltac per_event :=
  unfold bind, lift, first_of, try_except, ret, raise, logger, record_dispatch;
  repeat (cbn beta iota;
          match goal with
          | |- context [match ?x with _ => _ end] =>
              lazymatch x with
              | context [match _ with _ => _ end] => fail
              | _ => destruct x
              end
          end);
  unfold dispatched; simpl; tauto.

(** A scan followed by a loop that only logs and dispatches: when it
    returns, the queries of the scan have been issued and nothing else. *)
Lemma scan_then_dispatch fuel event_name from_block to_block
    (body : RawLog -> M unit) w w' :
  (forall x w0,
      match body x w0 with
      | Ret _ w1 | Raise _ w1 => dispatched w0 w1
      | Diverge => True
      end) ->
  from_block <= to_block + 1 ->
  (chunks from_block to_block 1000 <= fuel)%nat ->
  (let* events := get_event_logs env fuel event_name from_block to_block 1000 in
   for_each events body) w = Ret tt w' ->
  queries w'
  = (queries w
     ++ (query_for env event_name
           <$> scan_ranges fuel to_block 1000 from_block
                 (Z.min (from_block + 1000 - 1) to_block)))%list /\
  es_checkpoint w' = es_checkpoint w.
Proof.
  intros Hbody Hle Hfuel Hrun.
  destruct (get_event_logs_runs env fuel event_name from_block to_block 1000 w
              Hup ltac:(lia) Hle Hfuel) as (w1 & Hr & Hq & Hs).
  cbv zeta in *. unfold bind in Hrun. rewrite Hr in Hrun.
  match type of Hrun with for_each ?events _ _ = _ =>
    pose proof (for_each_dispatched body Hbody events w1) as Hd end.
  rewrite Hrun in Hd.
  unfold dispatched, scanned in *. split; [rewrite <- Hq; tauto|intuition congruence].
Qed.

Lemma handle_regular_event_processor_returned
    fuel event_name processor from_block to_block w w' :
  from_block <= to_block + 1 ->
  (chunks from_block to_block 1000 <= fuel)%nat ->
  handle_regular_event_processor env fuel event_name processor from_block to_block w
  = Ret tt w' ->
  queries w'
  = (queries w
     ++ (query_for env event_name
           <$> scan_ranges fuel to_block 1000 from_block
                 (Z.min (from_block + 1000 - 1) to_block)))%list /\
  es_checkpoint w' = es_checkpoint w.
Proof.
  intros Hle Hfuel. unfold handle_regular_event_processor.
  apply scan_then_dispatch; [|exact Hle|exact Hfuel].
  intros event w0. per_event.
Qed.

Lemma handle_token_uri_update_returned fuel from_block to_block w w' :
  from_block <= to_block + 1 ->
  (chunks from_block to_block 1000 <= fuel)%nat ->
  handle_token_uri_update env fuel from_block to_block w = Ret tt w' ->
  queries w'
  = (queries w
     ++ (query_for env EVENT_TOKEN_URI_UPDATE
           <$> scan_ranges fuel to_block 1000 from_block
                 (Z.min (from_block + 1000 - 1) to_block)))%list /\
  es_checkpoint w' = es_checkpoint w.
Proof.
  intros Hle Hfuel. unfold handle_token_uri_update.
  apply scan_then_dispatch; [|exact Hle|exact Hfuel].
  intros event w0. per_event.
Qed.

Lemma handle_price_change_returned fuel from_block to_block w w' :
  from_block <= to_block + 1 ->
  (chunks from_block to_block 1000 <= fuel)%nat ->
  handle_price_change env fuel from_block to_block w = Ret tt w' ->
  queries w'
  = (queries w
     ++ concat
          ((fun event_name =>
              query_for env event_name
                <$> scan_ranges fuel to_block 1000 from_block
                      (Z.min (from_block + 1000 - 1) to_block))
             <$> price_change_events))%list /\
  es_checkpoint w' = es_checkpoint w.
Proof.
  intros Hle Hfuel. unfold handle_price_change, bind at 1.
  destruct (get_fre env) as [e|fre]; [discriminate|]. cbn [lift ret].
  unfold bind at 1.
  destruct (get_dispenser env) as [e|dispenser]; [discriminate|]. cbn [lift ret].
  unfold price_change_events. cbn [for_each]. intros Hrun.
  apply bind_ret_inv in Hrun as ([] & w1 & Hr1 & Hrun).
  apply bind_ret_inv in Hrun as ([] & w2 & Hr2 & Hrun).
  apply bind_ret_inv in Hrun as ([] & w3 & Hr3 & Hrun).
  apply bind_ret_inv in Hrun as ([] & w4 & Hr4 & Hrun).
  injection Hrun as <-.
  apply scan_then_dispatch in Hr1 as [Hq1 Hc1];
    [|intros event w0; per_event|exact Hle|exact Hfuel].
  apply scan_then_dispatch in Hr2 as [Hq2 Hc2];
    [|intros event w0; per_event|exact Hle|exact Hfuel].
  apply scan_then_dispatch in Hr3 as [Hq3 Hc3];
    [|intros event w0; per_event|exact Hle|exact Hfuel].
  apply scan_then_dispatch in Hr4 as [Hq4 Hc4];
    [|intros event w0; per_event|exact Hle|exact Hfuel].
  split; [|congruence].
  rewrite Hq4, Hq3, Hq2, Hq1. cbn [fmap list_fmap concat].
  rewrite app_nil_r, <- !app_assoc. reflexivity.
Qed.

(** With a store that answers, a range that has been processed to its end
    has been scanned once for each kind of event, and the checkpoint has
    been stored. *)
Lemma process_block_range_returned fuel from_block to_block w w' :
  healthy env ->
  from_block <= to_block ->
  (chunks from_block to_block 1000 <= fuel)%nat ->
  process_block_range env fuel from_block to_block w = Ret tt w' ->
  queries w' = (queries w ++ scan_of env fuel from_block to_block)%list /\
  es_checkpoint w'
  = (if to_block <=? read_value env Healthy (es_checkpoint w)
     then es_checkpoint w else Some to_block).
Proof.
  intros Hh Hle Hfuel.
  assert (Hpos : (0 < chunks from_block to_block 1000)%nat).
  { pose proof (chunks_step from_block to_block 1000 ltac:(lia) Hle). lia. }
  destruct fuel as [|fuel']; [lia|]. set (fuel := S fuel') in *.
  unfold process_block_range, bind at 1, logger at 1.
  rewrite (proj2 (Z.ltb_ge _ _)) by lia.
  unfold event_processors. cbn [for_each fst snd]. intros Hrun.
  apply bind_ret_inv in Hrun as ([] & w4 & Hrun & Hrest).
  apply bind_ret_inv in Hrun as ([] & w1 & Hr1 & Hrun).
  apply bind_ret_inv in Hrun as ([] & w2 & Hr2 & Hrun).
  apply bind_ret_inv in Hrun as ([] & w3 & Hr3 & Hrun).
  injection Hrun as <-.
  apply bind_ret_inv in Hrest as ([] & w5 & Hr4 & Hrest).
  apply bind_ret_inv in Hrest as ([] & w6 & Hr5 & Hr6).
  apply handle_regular_event_processor_returned in Hr1 as [Hq1 Hc1]; [|lia|exact Hfuel].
  apply handle_regular_event_processor_returned in Hr2 as [Hq2 Hc2]; [|lia|exact Hfuel].
  apply handle_regular_event_processor_returned in Hr3 as [Hq3 Hc3]; [|lia|exact Hfuel].
  apply handle_price_change_returned in Hr4 as [Hq4 Hc4]; [|lia|exact Hfuel].
  apply handle_token_uri_update_returned in Hr5 as [Hq5 Hc5]; [|lia|exact Hfuel].
  destruct (store_last_processed_block_healthy env fuel' to_block w6 Hh)
    as (w7 & Hr7 & Hck & Hf7 & Ha7 & Hq7 & Hp7).
  fold fuel in Hr7. rewrite Hr7 in Hr6. injection Hr6 as <-.
  cbn in Hq1, Hc1. split.
  - rewrite Hq7, Hq5, Hq4, Hq3, Hq2, Hq1.
    unfold scan_of, dispatch_order, price_change_events.
    cbn [fmap list_fmap concat]. rewrite !app_nil_r, <- !app_assoc. reflexivity.
  - rewrite Hck. replace (es_checkpoint w6) with (es_checkpoint w) by congruence.
    reflexivity.
Qed.

End returned.

Lemma scan_ranges_past fuel to_block chunk_size _from _to :
  to_block < _from -> scan_ranges fuel to_block chunk_size _from _to = [].
Proof.
  intros Hlt. destruct fuel; simpl; rewrite (proj2 (Z.leb_gt _ _)) by lia; reflexivity.
Qed.

Lemma scan_ranges_0_1050 fuel :
  scan_ranges (S (S fuel)) 1050 1000 0 (Z.min (0 + 1000 - 1) 1050)
  = [(0, 999); (1000, 1050)].
Proof. simpl. rewrite scan_ranges_past by lia. reflexivity. Qed.

Lemma scan_ranges_0_0 fuel :
  scan_ranges (S fuel) 0 1000 0 (Z.min (0 + 1000 - 1) 0) = [(0, 0)].
Proof. simpl. rewrite scan_ranges_past by lia. reflexivity. Qed.

Lemma scan_ranges_0_1000 fuel :
  scan_ranges (S (S fuel)) 1000 1000 0 (Z.min (0 + 1000 - 1) 1000)
  = [(0, 999); (1000, 1000)].
Proof. simpl. rewrite scan_ranges_past by lia. reflexivity. Qed.

Lemma scan_ranges_1000_1050 fuel :
  scan_ranges (S fuel) 1050 1000 1000 (Z.min (1000 + 1000 - 1) 1050) = [(1000, 1050)].
Proof. simpl. rewrite scan_ranges_past by lia. reflexivity. Qed.

(** C5, amended.  Called on [[0, 1050]] with chunk size 1000 on a node
    that answers, [get_event_logs] issues exactly the ranges [[0, 999]] and
    [[1000, 1050]].  [process_current_blocks], with head 1050, checkpoint 0
    and an outer chunk size of 1000, processes [[0, 0]], then [[0, 1000]],
    then [[1000, 1050]]: over a node and a store that answer, every cycle
    that runs to its end has issued, for each kind of event, the ranges
    [[0, 0]], [[0, 999]], [[1000, 1000]] and [[1000, 1050]], and leaves the
    checkpoint at 1050, whatever the logs found and whatever the processors
    did.  On a ledger without logs, when the two price contracts can be
    obtained, the cycle does run to its end. *)
Theorem ranges_for_head_1050 env fuel w :
  (2 <= fuel)%nat ->
  (ledger_up env ->
   forall event_name,
   exists found w',
     get_event_logs env fuel event_name 0 1050 1000 w = Ret found w' /\
     queries w'
     = (queries w ++ [query_for env event_name (0, 999);
                      query_for env event_name (1000, 1050)])%list) /\
  (ledger_up env -> healthy env ->
   block_number env = inr (PyInt 1050) ->
   blockchain_chunk_size env = 1000 ->
   es_checkpoint w = Some 0 ->
   forall w',
     process_current_blocks env fuel w = Ret tt w' ->
     queries w'
     = (queries w
        ++ concat ((fun event_name => [query_for env event_name (0, 0)])
                     <$> dispatch_order)
        ++ concat ((fun event_name => [query_for env event_name (0, 999);
                                       query_for env event_name (1000, 1000)])
                     <$> dispatch_order)
        ++ concat ((fun event_name => [query_for env event_name (1000, 1050)])
                     <$> dispatch_order))%list /\
     es_checkpoint w' = Some 1050) /\
  (no_logs env -> healthy env ->
   (exists fre, get_fre env = inr fre) ->
   (exists dispenser, get_dispenser env = inr dispenser) ->
   block_number env = inr (PyInt 1050) ->
   blockchain_chunk_size env = 1000 ->
   es_checkpoint w = Some 0 ->
   exists w', process_current_blocks env fuel w = Ret tt w').
Proof.
  intros Hfuel. destruct fuel as [|[|fuel]]; [lia|lia|].
  assert (Hunfold :
            healthy env ->
            block_number env = inr (PyInt 1050) ->
            blockchain_chunk_size env = 1000 ->
            es_checkpoint w = Some 0 ->
            exists w0,
              es_checkpoint w0 = Some 0 /\ queries w0 = queries w /\
              process_current_blocks env (S (S fuel)) w
              = (process_block_range env (S (S fuel)) 0 0 ;;
                 process_block_range env (S (S fuel)) 0 1000 ;;
                 process_block_range env (S (S fuel)) 1000 1050) w0).
  { intros Hh Hhead Hchunk Hck.
    destruct (get_last_processed_block_healthy env (S fuel) w Hh)
      as (w0 & Hr0 & Hq0 & _).
    rewrite Hck in Hr0. change (read_value env Healthy (Some 0)) with 0 in Hr0.
    exists w0. split; [unfold quiet in Hq0; intuition congruence|].
    split; [unfold quiet in Hq0; intuition congruence|].
    unfold process_current_blocks, bind at 1. rewrite Hr0.
    unfold bind at 1. rewrite Hhead. cbn [lift ret truthy as_int negb].
    change (Z.eqb 1050 0) with false. cbn [negb].
    change (1050 <=? 0) with false. cbv iota.
    unfold bind at 1. rewrite Hchunk.
    change (py_range 0 1050 1000) with (ret (A := list Z) [0; 1000]). cbn [ret].
    cbn [chunk_loop]. unfold bind.
    destruct (process_block_range env (S (S fuel)) 0 0 w0) as [[] w1|e w1|];
      [|reflexivity..].
    destruct (process_block_range env (S (S fuel)) 0 1000 w1) as [[] w2|e w2|];
      reflexivity. }
  split; [|split].
  - intros Hup event_name.
    destruct (get_event_logs_runs env (S (S fuel)) event_name 0 1050 1000 w Hup)
      as (w' & Hr & Hq & _); [lia|lia| |].
    + change (chunks 0 1050 1000) with 2%nat. lia.
    + eexists _, w'. split; [exact Hr|]. rewrite Hq, scan_ranges_0_1050. reflexivity.
  - intros Hup Hh Hhead Hchunk Hck w' Hrun.
    destruct (Hunfold Hh Hhead Hchunk Hck) as (w0 & Hck0 & Hqu0 & Heq).
    rewrite Heq in Hrun.
    apply bind_ret_inv in Hrun as ([] & w1 & Hr1 & Hrun).
    apply bind_ret_inv in Hrun as ([] & w2 & Hr2 & Hr3).
    apply (process_block_range_returned env Hup) in Hr1 as [Hq1 Hck1]; [|exact Hh|lia|].
    2: { change (chunks 0 0 1000) with 1%nat. lia. }
    rewrite Hck0 in Hck1. change (read_value env Healthy (Some 0)) with 0 in Hck1.
    change (0 <=? 0) with true in Hck1. cbv iota in Hck1.
    apply (process_block_range_returned env Hup) in Hr2 as [Hq2 Hck2]; [|exact Hh|lia|].
    2: { change (chunks 0 1000 1000) with 2%nat. lia. }
    rewrite Hck1 in Hck2. change (read_value env Healthy (Some 0)) with 0 in Hck2.
    change (1000 <=? 0) with false in Hck2. cbv iota in Hck2.
    apply (process_block_range_returned env Hup) in Hr3 as [Hq3 Hck3]; [|exact Hh|lia|].
    2: { change (chunks 1000 1050 1000) with 1%nat. lia. }
    rewrite Hck2 in Hck3. change (read_value env Healthy (Some 1000)) with 1000 in Hck3.
    change (1050 <=? 1000) with false in Hck3. cbv iota in Hck3.
    split; [|exact Hck3].
    rewrite Hq3, Hq2, Hq1, Hqu0, <- !app_assoc. unfold scan_of.
    rewrite scan_ranges_0_0, scan_ranges_0_1000, scan_ranges_1000_1050. reflexivity.
  - intros Hempty Hh (fre & Hfre) (dispenser & Hdisp) Hhead Hchunk Hck.
    destruct (Hunfold Hh Hhead Hchunk Hck) as (w0 & _ & _ & Heq).
    destruct (process_block_range_no_logs env Hempty (S (S fuel)) 0 0 w0 fre dispenser
                Hh Hfre Hdisp) as (w1 & Hr1 & _); [lia| |].
    { change (chunks 0 0 1000) with 1%nat. lia. }
    destruct (process_block_range_no_logs env Hempty (S (S fuel)) 0 1000 w1 fre dispenser
                Hh Hfre Hdisp) as (w2 & Hr2 & _); [lia| |].
    { change (chunks 0 1000 1000) with 2%nat. lia. }
    destruct (process_block_range_no_logs env Hempty (S (S fuel)) 1000 1050 w2 fre dispenser
                Hh Hfre Hdisp) as (w3 & Hr3 & _); [lia| |].
    { change (chunks 1000 1050 1000) with 1%nat. lia. }
    exists w3. rewrite Heq. unfold bind. rewrite Hr1, Hr2. exact Hr3.
Qed.

(** *** The background loop and its flag *)

Section flag.

Variable env : Env.

Lemma blind_ret {A} (a : A) : flag_blind (ret a).
Proof. intros on w. reflexivity. Qed.

Lemma blind_raise {A} (e : exn) : flag_blind (raise (A := A) e).
Proof. intros on w. reflexivity. Qed.

Lemma blind_diverge {A} : flag_blind (diverge (A := A)).
Proof. intros on w. reflexivity. Qed.

Lemma blind_lift {A} (r : exn + A) : flag_blind (lift r).
Proof. destruct r; intros on w; reflexivity. Qed.

Lemma blind_first_of {A} (t : list A) : flag_blind (first_of t).
Proof. destruct t; intros on w; reflexivity. Qed.

Lemma blind_bind {A B} (m : M A) (k : A -> M B) :
  flag_blind m -> (forall a, flag_blind (k a)) -> flag_blind (bind m k).
Proof.
  intros Hm Hk on w. unfold bind. rewrite Hm.
  destruct (m w) as [a w'|e w'|]; simpl; [apply Hk|reflexivity|reflexivity].
Qed.

Lemma blind_try_except {A} (m : M A) catches handler :
  flag_blind m -> (forall e, flag_blind (handler e)) ->
  flag_blind (try_except m catches handler).
Proof.
  intros Hm Hh on w. unfold try_except. rewrite Hm.
  destruct (m w) as [a w'|e w'|]; simpl; [reflexivity| |reflexivity].
  destruct (catches e); [apply Hh|reflexivity].
Qed.

Lemma blind_for_each {A} (xs : list A) (body : A -> M unit) :
  (forall x, flag_blind (body x)) -> flag_blind (for_each xs body).
Proof.
  intros Hb. induction xs as [|x xs IH]; simpl.
  - apply blind_ret.
  - apply blind_bind; [apply Hb|intros _; exact IH].
Qed.

Lemma blind_logger lvl msg : flag_blind (logger lvl msg).
Proof. intros on w. reflexivity. Qed.

Lemma blind_sleep seconds : flag_blind (sleep seconds).
Proof. intros on w. reflexivity. Qed.

Lemma blind_record_query q : flag_blind (record_query q).
Proof. intros on w. reflexivity. Qed.

Lemma blind_record_dispatch d : flag_blind (record_dispatch d).
Proof. intros on w. reflexivity. Qed.

Lemma blind_es_call : flag_blind (es_call env).
Proof. intros on w. reflexivity. Qed.

Create HintDb blind.

#[local] Hint Resolve blind_ret blind_raise blind_diverge blind_lift blind_first_of
  blind_logger blind_sleep blind_record_query blind_record_dispatch blind_es_call
  : blind.

(** Structural descent through a computation built from blind pieces. *)
Ltac blind :=
  repeat first
    [ solve [auto with blind]
    | apply blind_bind; [|intros ?]
    | apply blind_try_except; [|intros ?]
    | apply blind_for_each; intros ?
    | match goal with
      | |- flag_blind (if ?c then _ else _) => destruct c
      | |- flag_blind (match ?x with _ => _ end) => destruct x
      end ].

Lemma blind_es_ping : flag_blind (es_ping env).
Proof. unfold es_ping. blind. Qed.

Lemma blind_es_get_last_block : flag_blind (es_get_last_block env).
Proof.
  unfold es_get_last_block. apply blind_bind; [auto with blind|].
  intros [| |e]; [|auto with blind..].
  intros on w. simpl. destruct (es_checkpoint w); reflexivity.
Qed.

Lemma blind_es_index_last_block block : flag_blind (es_index_last_block env block).
Proof.
  unfold es_index_last_block. apply blind_bind; [auto with blind|].
  intros [| |e]; [|auto with blind..]. intros on w. reflexivity.
Qed.

#[local] Hint Resolve blind_es_ping blind_es_get_last_block blind_es_index_last_block
  : blind.

Lemma blind_wait_for_es fuel : flag_blind (wait_for_es env fuel).
Proof. induction fuel as [|fuel IH]; simpl; blind. Qed.

#[local] Hint Resolve blind_wait_for_es : blind.

Lemma blind_get_last_processed_block fuel :
  flag_blind (get_last_processed_block env fuel).
Proof. unfold get_last_processed_block. cbv zeta. blind. Qed.

#[local] Hint Resolve blind_get_last_processed_block : blind.

Lemma blind_store_last_processed_block fuel block :
  flag_blind (store_last_processed_block env fuel block).
Proof. unfold store_last_processed_block. blind. Qed.

Lemma blind_get_event_logs_loop h from_block to_block chunk_size fuel :
  forall _from _to all_logs,
    flag_blind (get_event_logs_loop env fuel h from_block to_block chunk_size
                  _from _to all_logs).
Proof.
  induction fuel as [|fuel IH]; intros _from _to all_logs; simpl.
  - blind.
  - destruct (_from <=? to_block); [|blind]. cbv zeta. unfold web3_get_logs.
    apply blind_bind; [blind|]. intros found.
    apply blind_bind; [blind|]. intros _. apply IH.
Qed.

#[local] Hint Resolve blind_store_last_processed_block blind_get_event_logs_loop : blind.

Lemma blind_get_event_logs fuel event_name from_block to_block chunk_size :
  flag_blind (get_event_logs env fuel event_name from_block to_block chunk_size).
Proof. unfold get_event_logs. cbv zeta. blind. Qed.

#[local] Hint Resolve blind_get_event_logs : blind.

Lemma blind_handle_regular_event_processor fuel event_name processor from_block to_block :
  flag_blind
    (handle_regular_event_processor env fuel event_name processor from_block to_block).
Proof. unfold handle_regular_event_processor. blind. Qed.

Lemma blind_handle_price_change fuel from_block to_block :
  flag_blind (handle_price_change env fuel from_block to_block).
Proof. unfold handle_price_change. blind. Qed.

Lemma blind_handle_token_uri_update fuel from_block to_block :
  flag_blind (handle_token_uri_update env fuel from_block to_block).
Proof. unfold handle_token_uri_update. blind. Qed.

#[local] Hint Resolve blind_handle_regular_event_processor blind_handle_price_change
  blind_handle_token_uri_update : blind.

Lemma blind_process_block_range fuel from_block to_block :
  flag_blind (process_block_range env fuel from_block to_block).
Proof. unfold process_block_range. blind. Qed.

#[local] Hint Resolve blind_process_block_range : blind.

Lemma blind_py_range start stop step : flag_blind (py_range start stop step).
Proof. unfold py_range. cbv zeta. blind. Qed.

Lemma blind_chunk_loop fuel ends : forall start_block_chunk end_block_chunk,
  flag_blind (chunk_loop env fuel start_block_chunk ends end_block_chunk).
Proof.
  induction ends as [|e ends IH]; intros start_block_chunk end_block_chunk; simpl.
  - blind.
  - apply blind_bind; [blind|]. intros _. apply IH.
Qed.

#[local] Hint Resolve blind_py_range blind_chunk_loop : blind.


Lemma do_run_monitor_returns fuel w :
  match do_run_monitor env fuel w with
  | Raise _ _ => False
  | _ => True
  end.
Proof.
  unfold do_run_monitor. destruct (monitor_is_on w); simpl; [|exact I].
  unfold bind, try_except.
  destruct (process_current_blocks env fuel w) as [[] w1|e w1|]; simpl; [| |exact I].
  - destruct (purgatory env) as [[e|[]]|]; simpl; exact I.
  - destruct (purgatory env) as [[e'|[]]|]; simpl; exact I.
Qed.



End flag.

(** *** Runs on concrete stores *)

Import Examples MoreExamples.

(** C1.  The guard of [store_last_processed_block] compares the new block
    with what [get_last_processed_block] returns, and that is the default
    block whenever the read of the document fails.  With 10 stored, storing
    100 writes 100; the read of the next call fails once, so that storing
    50 finds 50 above the default block 0 and overwrites 100 with 50.  With
    a store that answers, the same two calls leave 100. *)
Lemma store_last_processed_block_regresses :
  (exists w1 w2,
     store_last_processed_block
       (demo_env 0 42 (PyInt 1050) (fifth_call_fails TransportError) [] [] []) 1 100
       (world_with true (Some 10) [])
     = Ret tt w1 /\
     es_checkpoint w1 = Some 100 /\
     store_last_processed_block
       (demo_env 0 42 (PyInt 1050) (fifth_call_fails TransportError) [] [] []) 1 50 w1
     = Ret tt w2 /\
     50 <= 100 /\
     es_checkpoint w2 = Some 50) /\
  (exists w1 w2,
     store_last_processed_block quiet_env 1 100 (world_with true (Some 10) []) = Ret tt w1 /\
     store_last_processed_block quiet_env 1 50 w1 = Ret tt w2 /\
     es_checkpoint w2 = Some 100).
Proof.
  split; eexists; eexists.
  - split; [vm_compute; reflexivity|]. split; [reflexivity|].
    split; [vm_compute; reflexivity|]. split; [lia|reflexivity].
  - split; [vm_compute; reflexivity|]. split; [vm_compute; reflexivity|]. reflexivity.
Qed.

(** A store that already holds a later block keeps it: with 200 stored,
    storing 100 and then 50 leaves 200. *)
Lemma store_last_processed_block_keeps_later_block :
  exists w',
    (store_last_processed_block quiet_env 1 100 ;;
     store_last_processed_block quiet_env 1 50) (world_with true (Some 200) [])
    = Ret tt w' /\
    50 <= 100 /\
    es_checkpoint w' = Some 200 /\
    es_checkpoint w' <> Some 100.
Proof.
  eexists. split; [vm_compute; reflexivity|]. simpl.
  split; [lia|]. split; [reflexivity|discriminate].
Qed.

Lemma store_last_processed_block_monotone_witness :
  exists w1 w2,
    store_last_processed_block quiet_env 1 100 (world_with true (Some 10) []) = Ret tt w1 /\
    store_last_processed_block quiet_env 1 50 w1 = Ret tt w2 /\
    es_checkpoint w1 = Some 100 /\
    es_checkpoint w2 = es_checkpoint w1 /\
    read_value quiet_env Healthy (es_checkpoint w2) = 100.
Proof.
  apply (proj2 (store_last_processed_block_monotone quiet_env 1
                  (world_with true (Some 10) []) 100 50)).
  - intros n. reflexivity.
  - discriminate.
  - lia.
  - lia.
Defined.

(** C8 as stated fails on a stored value below zero: with [-1] stored and
    default block 7 the read returns 7. *)
Lemma get_last_processed_block_negative_stored :
  exists w',
    get_last_processed_block (demo_env 7 42 (PyInt 1050) always_up [] [] []) 1
      (world_with true (Some (-1)) [])
    = Ret 7 w' /\
    es_checkpoint w' = Some (-1) /\
    7 <> -1.
Proof.
  eexists. split; [vm_compute; reflexivity|]. simpl. split; [reflexivity|lia].
Qed.

Lemma get_last_processed_block_default_witness :
  exists w',
    get_last_processed_block (demo_env 7 42 (PyInt 1050) flaky [] [] []) 3
      (world_with true (Some 12) [])
    = Ret 12 w' /\
    quiet (world_with true (Some 12) []) w'.
Proof.
  apply (proj2 (proj2 (get_last_processed_block_default
                         (demo_env 7 42 (PyInt 1050) flaky [] [] []) 3
                         (world_with true (Some 12) []))) 2%nat).
  - intros i Hi. destruct i as [|[|i]]; [reflexivity|reflexivity|lia].
  - reflexivity.
  - lia.
Defined.

(** C2 at a store whose checkpoint is 1000: a clean start with start block
    42 deletes the three documents of the chain and leaves the checkpoint
    at 1000. *)
Lemma reset_chain_keeps_later_checkpoint :
  clean_start quiet_env = true /\
  start_block quiet_env = 42 /\
  exists w',
    init_clean_start quiet_env 1 (world_with true (Some 1000) four_assets) = Ret tt w' /\
    reset_chain quiet_env 1 (world_with true (Some 1000) four_assets) = Ret tt w' /\
    es_assets w' = [{| id := "did:op:9"; chainId := 1 |}] /\
    es_checkpoint w' = Some 1000.
Proof.
  split; [reflexivity|]. split; [reflexivity|].
  eexists. split; [vm_compute; reflexivity|]. split; [vm_compute; reflexivity|].
  simpl. split; reflexivity.
Qed.

(** The same clean start on a store whose checkpoint is 10 does move it. *)
Lemma reset_chain_moves_earlier_checkpoint :
  exists w',
    reset_chain quiet_env 1 (world_with true (Some 10) four_assets) = Ret tt w' /\
    es_assets w' = [{| id := "did:op:9"; chainId := 1 |}] /\
    es_checkpoint w' = Some 42.
Proof.
  eexists. split; [vm_compute; reflexivity|]. simpl. split; reflexivity.
Qed.

(** C3.  The receipt and the first decoded event of a log are obtained
    before the [try] block, so an event that cannot be decoded is not
    isolated: of five logs the second aborts the handler after the first
    was processed, the exception leaves [process_current_blocks], the logs
    after it are not looked at and the checkpoint stays.  The loop then
    repeats the same cycle: after three iterations the first event has been
    processed three times, the other four never, and the checkpoint has not
    moved. *)
Lemma decode_failure_aborts_the_range :
  (exists w',
     handle_regular_event_processor undecodable_env 1
       EVENT_METADATA_CREATED MetadataCreatedProcessor 0 5 (world_with true (Some 0) [])
     = Raise IndexError w' /\
     dispatch_event <$> processed w' = take 1 five_logs) /\
  (exists w',
     process_current_blocks undecodable_env 1 (world_with true (Some 0) [])
     = Raise IndexError w' /\
     dispatch_event <$> processed w' = take 1 five_logs /\
     es_checkpoint w' = Some 0) /\
  (exists w',
     run_monitor_iterations undecodable_env 3 1 (world_with true (Some 0) [])
     = Ret tt w' /\
     dispatch_event <$> processed w'
     = (take 1 five_logs ++ take 1 five_logs ++ take 1 five_logs)%list /\
     es_checkpoint w' = Some 0).
Proof.
  split; [|split]; eexists; (split; [vm_compute; reflexivity|]); vm_compute; auto.
Qed.

(** A processor that raises on the second of five events: the other four
    are processed and the checkpoint moves to the head. *)
Lemma processor_failure_is_isolated :
  exists w',
    process_current_blocks failing_env 1 (world_with true (Some 0) []) = Ret tt w' /\
    dispatch_event <$> processed w' = (take 1 five_logs ++ drop 2 five_logs)%list /\
    es_checkpoint w' = Some 5 /\
    List.filter (fun l => bool_decide (level l = EXCEPTION)) (logs w')
    = [exception_entry ValueError {| address := "0xnft"; transactionHash := "0x02";
                                     blockNumber := 2 |}].
Proof.
  eexists. split; [vm_compute; reflexivity|]. vm_compute. auto.
Qed.

Lemma handle_regular_event_processor_isolation_witness :
  exists w2,
    handle_regular_event_processor failing_env 1
      EVENT_METADATA_CREATED MetadataCreatedProcessor 0 5 (world_with true (Some 0) [])
    = Ret tt w2 /\
    dispatch_event <$> processed w2 = (take 1 five_logs ++ drop 2 five_logs)%list.
Proof.
  assert (Hget : exists w1,
             get_event_logs failing_env 1 EVENT_METADATA_CREATED 0 5 1000
               (world_with true (Some 0) []) = Ret five_logs w1)
    by (eexists; vm_compute; reflexivity).
  destruct Hget as (w1 & Hget).
  destruct (proj1 (handle_regular_event_processor_isolation failing_env 1
                     EVENT_METADATA_CREATED MetadataCreatedProcessor 0 5
                     (world_with true (Some 0) []) w1) five_logs Hget)
    as (w2 & Hrun & Hp & _).
  - repeat constructor; vm_compute; eauto.
  - exists w2. split; [exact Hrun|]. rewrite Hp.
    assert (Hw1 : processed w1 = []).
    { vm_compute in Hget. inversion Hget. reflexivity. }
    rewrite Hw1. vm_compute. reflexivity.
Defined.

Lemma get_event_logs_partition_witness :
  exists found w' issued,
    get_event_logs quiet_env 3 EVENT_METADATA_CREATED 0 5 2 (world_with true (Some 0) [])
    = Ret found w' /\
    queries w' = (queries (world_with true (Some 0) []) ++ issued)%list /\
    Forall (fun q => topics q = [keccak quiet_env (hash_text EVENT_METADATA_CREATED)]) issued /\
    concat (blocks_queried <$> issued) = seqZ 0 (5 - 0 + 1) /\
    Forall (fun q => 1 <= width q <= 2) issued /\
    (forall i q, issued !! i = Some q -> (S i < length issued)%nat -> width q = 2).
Proof.
  apply (get_event_logs_partition quiet_env 3 EVENT_METADATA_CREATED 0 5 2).
  - lia.
  - lia.
  - intros q. unfold quiet_env, demo_env, ledger. simpl.
    destruct (bool_decide _); eexists; reflexivity.
  - vm_compute. lia.
Defined.

Lemma process_current_blocks_noop_witness :
  exists w1,
    process_current_blocks (demo_env 0 42 (PyInt 5) always_up [] [] []) 1
      (world_with true (Some 10) [])
    = Ret tt w1 /\
    quiet (world_with true (Some 10) []) w1 /\
    queries w1 = [] /\ es_checkpoint w1 = Some 10.
Proof.
  eexists.
  apply (process_current_blocks_noop (demo_env 0 42 (PyInt 5) always_up [] [] []) 1
           (world_with true (Some 10) []) 10 _ (PyInt 5)).
  - vm_compute. reflexivity.
  - reflexivity.
  - right. right. exists 5. split; [reflexivity|lia].
Defined.

(** C10.  The head is compared with what [get_last_processed_block]
    returns, and that is the default block whenever the read of the
    document fails.  With 1000 stored and head 500 a cycle over a store that
    answers is a no-op; over a store whose reads fail the same cycle scans
    from the default block 0, issues sixteen queries and overwrites the
    checkpoint with 500. *)
Lemma process_current_blocks_scans_below_the_checkpoint :
  (exists w',
     process_current_blocks (demo_env 0 42 (PyInt 500) always_up [] [] []) 1
       (world_with true (Some 1000) [])
     = Ret tt w' /\
     queries w' = [] /\ es_checkpoint w' = Some 1000) /\
  (exists w',
     process_current_blocks (demo_env 0 42 (PyInt 500) reads_fail [] [] []) 1
       (world_with true (Some 1000) [])
     = Ret tt w' /\
     500 <= 1000 /\
     length (queries w') = 16%nat /\
     ranges_of EVENT_METADATA_CREATED (queries w') = [(0, 0); (0, 500)] /\
     es_checkpoint w' = Some 500).
Proof.
  split; eexists.
  - split; [vm_compute; reflexivity|]. split; reflexivity.
  - split; [vm_compute; reflexivity|]. split; [lia|]. vm_compute. auto.
Qed.

(** C5 as stated fails on the monitor as a whole: with head 1050, checkpoint
    0 and both chunk sizes 1000, the [MetadataCreated] queries cover four
    ranges, of which block 0 and block 1000 are queried more than once.
    Nor are the four ranges issued for each kind by every cycle: over a
    ledger with a log that cannot be decoded the cycle raises after ten
    queries and leaves the checkpoint at 0. *)
Lemma process_current_blocks_issues_four_ranges :
  (exists w',
     process_current_blocks quiet_env 2 (world_with true (Some 0) []) = Ret tt w' /\
     ranges_of EVENT_METADATA_CREATED (queries w')
     = [(0, 0); (0, 999); (1000, 1000); (1000, 1050)] /\
     ranges_of EVENT_METADATA_CREATED (queries w') <> [(0, 999); (1000, 1050)]) /\
  (exists w',
     process_current_blocks
       (demo_env 0 42 (PyInt 1050) always_up five_logs ["0x02"] []) 2
       (world_with true (Some 0) [])
     = Raise IndexError w' /\
     length (queries w') = 10%nat /\
     es_checkpoint w' = Some 0).
Proof.
  split; eexists.
  - split; [vm_compute; reflexivity|]. vm_compute.
    split; [reflexivity|discriminate].
  - split; [vm_compute; reflexivity|]. split; reflexivity.
Qed.

Lemma quiet_env_no_logs : no_logs quiet_env.
Proof.
  intros q. unfold quiet_env, demo_env, ledger. simpl.
  destruct (bool_decide _); reflexivity.
Qed.

(** Head 1050 over [five_logs], which every processor handles. *)
Lemma ranges_for_head_1050_witness :
  (exists w',
     process_current_blocks (demo_env 0 42 (PyInt 1050) always_up five_logs [] []) 2
       (world_with true (Some 0) [])
     = Ret tt w' /\
     dispatch_event <$> processed w' = five_logs /\
     ranges_of EVENT_METADATA_CREATED (queries w')
     = [(0, 0); (0, 999); (1000, 1000); (1000, 1050)] /\
     es_checkpoint w' = Some 1050) /\
  (exists w',
     process_current_blocks quiet_env 2 (world_with true (Some 0) []) = Ret tt w').
Proof.
  split.
  - assert (Hrun : exists w',
               process_current_blocks
                 (demo_env 0 42 (PyInt 1050) always_up five_logs [] []) 2
                 (world_with true (Some 0) []) = Ret tt w' /\
               dispatch_event <$> processed w' = five_logs)
      by (eexists; split; vm_compute; reflexivity).
    destruct Hrun as (w' & Hrun & Hprocessed).
    destruct (proj1 (proj2 (ranges_for_head_1050
                              (demo_env 0 42 (PyInt 1050) always_up five_logs [] []) 2
                              (world_with true (Some 0) []) (le_n 2)))
                ltac:(intros q; unfold demo_env, ledger; simpl;
                      destruct (bool_decide _); eexists; reflexivity)
                ltac:(intros n; reflexivity) eq_refl eq_refl eq_refl w' Hrun)
      as [Hq Hck].
    exists w'. split; [exact Hrun|]. split; [exact Hprocessed|]. split; [|exact Hck].
    rewrite Hq. vm_compute. reflexivity.
  - apply (proj2 (proj2 (ranges_for_head_1050 quiet_env 2 (world_with true (Some 0) [])
                           (le_n 2)))).
    + exact quiet_env_no_logs.
    + intros n. reflexivity.
    + eexists. reflexivity.
    + eexists. reflexivity.
    + reflexivity.
    + reflexivity.
    + reflexivity.
Defined.



End EventsMonitorSpec.

(** ** Further properties of the proof validator *)

Module ProofCheckerMore.

Import ProofChecker.

Section facts.

Context {pyval : Type}.
Variable loads_set : string -> string + list pyval.
Variable toChecksumAddress : pyval -> option string.

Local Abbreviation check_metadata_proofs :=
  (ProofChecker.check_metadata_proofs loads_set toChecksumAddress).
Local Abbreviation checksum_set := (ProofChecker.checksum_set toChecksumAddress).

Lemma checksum_set_same_elements (l1 l2 : list pyval) :
  (forall v, v ∈ l1 <-> v ∈ l2) -> checksum_set l1 = checksum_set l2.
Proof.
  intros Hsame. destruct (checksum_set l1) as [X|] eqn:E1.
  - symmetry. apply ProofCheckerSpec.checksum_set_Some. apply ProofCheckerSpec.checksum_set_Some in E1 as [Hall HX].
    split; [intros v Hv; apply Hall, Hsame, Hv|].
    intros a. rewrite HX. split; intros (v & Hv & Ha); exists v; split; auto;
      apply Hsame; exact Hv.
  - destruct (checksum_set l2) as [X|] eqn:E2; [|reflexivity].
    apply ProofCheckerSpec.checksum_set_Some in E2 as [Hall HX].
    assert (is_Some (checksum_set l1)) as [Y HY]; [|congruence].
    assert (Hall1 : forall v, v ∈ l1 -> is_Some (toChecksumAddress v))
      by (intros v Hv; apply Hall, Hsame, Hv).
    unfold ProofChecker.checksum_set.
    destruct (mapM toChecksumAddress l1) as [k|] eqn:Ek; [eauto|].
    apply mapM_None in Ek. apply Exists_exists in Ek as (v & Hv & Hnone).
    destruct (Hall1 v Hv) as [a Ha]. congruence.
Qed.

(** The verdict and the log depend on the proofs only through the set of
    their validators: order and repetitions do not matter. *)
Theorem check_metadata_proofs_set_of_validators allowed_validators proofs1 proofs2 :
  (forall v, v ∈ validator <$> proofs1 <-> v ∈ validator <$> proofs2) ->
  check_metadata_proofs allowed_validators proofs1
  = check_metadata_proofs allowed_validators proofs2.
Proof.
  intros Hsame. unfold ProofChecker.check_metadata_proofs.
  rewrite (checksum_set_same_elements _ _ Hsame). reflexivity.
Qed.

(** With validators configured, a batch without proofs is rejected. *)
Theorem check_metadata_proofs_no_proofs text allowed :
  text ≠ "" -> loads_set text = inr allowed -> allowed ≠ [] ->
  (check_metadata_proofs (Some text) []).1 = false.
Proof.
  intros Hne Hl Hal. unfold ProofChecker.check_metadata_proofs.
  rewrite bool_decide_eq_false_2 by assumption. rewrite Hl.
  destruct allowed as [|a allowed]; [contradiction|]. simpl negb. cbv iota.
  change (checksum_set (validator <$> [])) with (Some (∅ : gset string)).
  cbv iota. destruct (checksum_set (a :: allowed)) as [A|]; [|reflexivity].
  rewrite intersection_empty_l_L, elements_empty. reflexivity.
Qed.

(** Proofs that normalise never turn an accepted batch into a rejected
    one. *)
Theorem check_metadata_proofs_more_proofs allowed_validators proofs more :
  (check_metadata_proofs allowed_validators proofs).1 = true ->
  (forall p, p ∈ more -> is_Some (toChecksumAddress (validator p))) ->
  (check_metadata_proofs allowed_validators (proofs ++ more)).1 = true.
Proof.
  unfold ProofChecker.check_metadata_proofs.
  destruct allowed_validators as [text|]; [|reflexivity].
  destruct (bool_decide (text = "")); [reflexivity|].
  destruct (loads_set text) as [e|allowed]; [discriminate|].
  destruct (negb (truthy_list allowed)); [reflexivity|].
  destruct (checksum_set (validator <$> proofs)) as [P|] eqn:EP; [|discriminate].
  destruct (checksum_set allowed) as [A|]; [|discriminate].
  simpl. intros Hacc Hmore.
  apply ProofCheckerSpec.truthy_elements in Hacc.
  apply ProofCheckerSpec.checksum_set_Some in EP as [Hall HP].
  assert (is_Some (checksum_set (validator <$> (proofs ++ more)%list))) as [P' EP'].
  { unfold ProofChecker.checksum_set.
    destruct (mapM toChecksumAddress (validator <$> (proofs ++ more)%list)) as [k|] eqn:Ek;
      [eauto|].
    apply mapM_None in Ek. apply Exists_exists in Ek as (v & Hv & Hnone).
    rewrite fmap_app in Hv. apply elem_of_app in Hv as [Hv|Hv].
    - destruct (Hall v Hv) as [a Ha]. congruence.
    - apply list_elem_of_fmap in Hv as (p & -> & Hp).
      destruct (Hmore p Hp) as [a Ha]. congruence. }
  rewrite EP'. simpl. apply ProofCheckerSpec.truthy_elements.
  apply ProofCheckerSpec.checksum_set_Some in EP' as [_ HP'].
  apply set_choose_L in Hacc as (a & Ha). apply elem_of_intersection in Ha as [HaP HaA].
  apply (non_empty_inhabited_L a). apply elem_of_intersection. split; [|exact HaA].
  apply HP'. apply HP in HaP as (v & Hv & Hva). exists v. split; [|exact Hva].
  rewrite fmap_app. apply elem_of_app. left. exact Hv.
Qed.

End facts.

Lemma check_metadata_proofs_set_of_validators_witness :
  check_metadata_proofs Examples.demo_loads_set Examples.demo_checksum
    (Some ("[" ++ Examples.quoted "0xab12" ++ "]"))
    [{| validator := "0xcd" |}; {| validator := "0xAB12" |}; {| validator := "0xcd" |}]
  = check_metadata_proofs Examples.demo_loads_set Examples.demo_checksum
      (Some ("[" ++ Examples.quoted "0xab12" ++ "]"))
      [{| validator := "0xAB12" |}; {| validator := "0xcd" |}].
Proof.
  apply check_metadata_proofs_set_of_validators.
  intros v. simpl. rewrite !elem_of_cons. tauto.
Defined.

Lemma check_metadata_proofs_no_proofs_witness :
  (check_metadata_proofs Examples.demo_loads_set Examples.demo_checksum
     (Some ("[" ++ Examples.quoted "0xab12" ++ "]")) []).1 = false.
Proof.
  apply (check_metadata_proofs_no_proofs Examples.demo_loads_set Examples.demo_checksum
           _ ["0xab12"]).
  - discriminate.
  - vm_compute. reflexivity.
  - discriminate.
Defined.

Lemma check_metadata_proofs_more_proofs_witness :
  (check_metadata_proofs Examples.demo_loads_set Examples.demo_checksum
     (Some ("[" ++ Examples.quoted "0xab12" ++ "]"))
     ([{| validator := "0xAB12" |}] ++ [{| validator := "0xcd" |}])).1 = true.
Proof.
  apply check_metadata_proofs_more_proofs.
  - vm_compute. reflexivity.
  - intros p Hp. apply list_elem_of_singleton in Hp. subst p.
    eexists. vm_compute. reflexivity.
Defined.

End ProofCheckerMore.

(** ** Further properties of the events monitor *)

Module EventsMonitorMore.

Import EventsMonitor Frames Examples MoreExamples EventsMonitorSpec.

Section checkpoint_more.

Variable env : Env.

Lemma wait_for_es_blocks fuel : forall w,
  (forall i, ping_fails (es_outcome env (es_calls w + i)) = true) ->
  wait_for_es env fuel w = Diverge.
Proof.
  induction fuel as [|fuel IH]; intros w Hdown; simpl; [reflexivity|].
  pose proof (Hdown 0%nat) as H0. rewrite Nat.add_0_r in H0.
  assert (Hnext : forall w1 : World, es_calls w1 = S (es_calls w) ->
            wait_for_es env fuel w1 = Diverge).
  { intros w1 Hc. apply IH. intros i. rewrite Hc.
    replace (S (es_calls w) + i)%nat with (es_calls w + S i)%nat by lia. apply Hdown. }
  unfold bind, try_except, es_ping, es_call, bind.
  destruct (es_outcome env (es_calls w)) as [| |e]; simpl in *; [discriminate| |].
  - apply Hnext. reflexivity.
  - rewrite H0. simpl. apply Hnext. reflexivity.
Qed.

(** [get_last_processed_block] pings until it is answered, five seconds
    apart: after [k] failed pings it has slept [5 * k] seconds and made
    [k + 2] calls, and while no ping is answered it never returns. *)
Theorem get_last_processed_block_retries fuel w :
  (forall k,
      (forall i, (i < k)%nat -> ping_fails (es_outcome env (es_calls w + i)) = true) ->
      es_outcome env (es_calls w + k) = Healthy ->
      (k < fuel)%nat ->
      exists b w',
        get_last_processed_block env fuel w = Ret b w' /\
        slept w' = slept w + 5 * Z.of_nat k /\
        es_calls w' = (es_calls w + k + 2)%nat /\
        quiet w w') /\
  ((forall i, ping_fails (es_outcome env (es_calls w + i)) = true) ->
   get_last_processed_block env fuel w = Diverge).
Proof.
  split.
  - intros k Hfail Hup Hfuel.
    destruct (get_last_processed_block_reads env k fuel w Hfail Hup Hfuel)
      as (w' & Hr & Hq & Hc & Hs).
    eexists _, w'. split; [exact Hr|]. split; [exact Hs|]. split; [lia|exact Hq].
  - intros Hdown. unfold get_last_processed_block, try_except, bind.
    rewrite (wait_for_es_blocks fuel w Hdown). reflexivity.
Qed.

(** A ping that raises something else than an Elasticsearch exception ends
    the wait at once: the default block is returned without sleeping and
    without reading the document. *)
Theorem get_last_processed_block_ping_raises fuel w e :
  es_outcome env (es_calls w) = Fails e ->
  is_ElasticsearchException e = false ->
  exists w',
    get_last_processed_block env (S fuel) w = Ret (defined_block env) w' /\
    es_calls w' = S (es_calls w) /\ slept w' = slept w /\ quiet w w'.
Proof.
  intros Ho He. unfold get_last_processed_block, try_except, bind. simpl.
  unfold bind, try_except, es_ping, es_call, bind. rewrite Ho. simpl. rewrite He.
  assert (Hnf : is_NotFoundError e = false) by (destruct e; simpl in *; congruence).
  rewrite Hnf. simpl. eexists. split; [reflexivity|]. simpl.
  split; [reflexivity|]. split; [reflexivity|]. repeat split.
Qed.

(** A write that the store rejects with [RequestError] is logged and
    dropped; any other failure of the write is raised to the caller.  In
    both cases the checkpoint is left as it was. *)
Theorem store_last_processed_block_rejected fuel block w stored w1 :
  get_last_processed_block env fuel w = Ret stored w1 ->
  stored < block ->
  (es_outcome env (es_calls w1) = Fails RequestError ->
   exists w2,
     store_last_processed_block env fuel block w = Ret tt w2 /\
     es_checkpoint w2 = es_checkpoint w /\
     logs w2
     = (logs w1 ++ [Log ERROR "store_last_processed_block: ES RequestError"])%list) /\
  (forall e,
      es_outcome env (es_calls w1) = Fails e -> is_RequestError e = false ->
      exists w2,
        store_last_processed_block env fuel block w = Raise e w2 /\
        es_checkpoint w2 = es_checkpoint w) /\
  (es_outcome env (es_calls w1) = Unreachable ->
   exists w2,
     store_last_processed_block env fuel block w = Raise ConnectionError w2 /\
     es_checkpoint w2 = es_checkpoint w).
Proof.
  intros Hget Hlt.
  pose proof (get_last_processed_block_post env fuel w) as P. rewrite Hget in P.
  destruct P as (Hq & _).
  assert (Hck : es_checkpoint w1 = es_checkpoint w) by quiet_tac.
  apply Z.leb_gt in Hlt.
  unfold store_last_processed_block, bind. rewrite Hget, Hlt.
  unfold try_except, es_index_last_block, es_call, bind.
  split; [|split].
  - intros Ho. rewrite Ho. simpl. eexists. split; [reflexivity|]. simpl. auto.
  - intros e Ho He. rewrite Ho. simpl. unfold raise. rewrite He.
    eexists. split; [reflexivity|]. simpl. auto.
  - intros Ho. rewrite Ho. simpl. eexists. split; [reflexivity|]. simpl. auto.
Qed.

Lemma read_value_negative (stored : option Z) :
  read_value env Healthy stored < 0 ->
  read_value env Healthy stored = defined_block env.
Proof.
  destruct stored as [b|]; simpl; [|reflexivity].
  destruct (Z.leb_spec 0 b); [lia|reflexivity].
Qed.

Lemma checkpoint_value_after_store (w w' : World) (block : Z) :
  es_checkpoint w'
  = (if block <=? checkpoint_value env w then es_checkpoint w else Some block) ->
  checkpoint_value env w'
  = (if 0 <=? block then Z.max (checkpoint_value env w) block
     else checkpoint_value env w).
Proof.
  unfold checkpoint_value. intros ->.
  pose proof (read_value_negative (es_checkpoint w)) as Hneg.
  destruct (Z.leb_spec block (read_value env Healthy (es_checkpoint w))) as [Hle|Hgt];
    destruct (Z.leb_spec 0 block) as [Hb|Hb]; cbv iota; try lia.
  - change (read_value env Healthy (Some block))
      with (if 0 <=? block then block else defined_block env).
    rewrite (proj2 (Z.leb_le 0 block) Hb). lia.
  - change (read_value env Healthy (Some block))
      with (if 0 <=? block then block else defined_block env).
    rewrite (proj2 (Z.leb_gt 0 block) Hb). symmetry. apply Hneg. lia.
Qed.

(** With a store that answers, storing non-negative blocks one after the
    other leaves the largest of them and of the value read at the start,
    in whatever order they come. *)
Theorem store_last_processed_block_running_max fuel blocks : forall w,
  healthy env ->
  Forall (fun block => 0 <= block) blocks ->
  exists w',
    for_each blocks (store_last_processed_block env (S fuel)) w = Ret tt w' /\
    checkpoint_value env w' = fold_left Z.max blocks (checkpoint_value env w).
Proof.
  intros w Hh. revert w.
  induction blocks as [|block blocks IH]; intros w Hpos.
  - exists w. split; reflexivity.
  - apply Forall_cons in Hpos as [Hb Hpos].
    destruct (store_last_processed_block_healthy env fuel block w Hh)
      as (w1 & Hs & Hck & _).
    destruct (IH w1 Hpos) as (w' & Hr & Hv).
    exists w'. cbn [for_each]. unfold bind. rewrite Hs. split; [exact Hr|].
    rewrite Hv. cbn [fold_left]. f_equal.
    rewrite (checkpoint_value_after_store w w1 block Hck).
    rewrite (proj2 (Z.leb_le 0 block) Hb). reflexivity.
Qed.

(** With a store that answers, a clean start leaves no document of the
    chain, keeps every document whose identifier is not that of a document
    of the chain, adds none, and moves the checkpoint to the start block
    exactly when the start block is above the value read back. *)
Theorem reset_chain_clears_chain fuel w :
  healthy env ->
  exists w',
    reset_chain env (S fuel) w = Ret tt w' /\
    Forall (fun a => chainId a <> chain_id env) (es_assets w') /\
    (forall a, a ∈ es_assets w' -> a ∈ es_assets w) /\
    (forall a, a ∈ es_assets w ->
               id a ∉ id <$> List.filter (in_chain env) (es_assets w) ->
               a ∈ es_assets w') /\
    es_checkpoint w'
    = (if start_block env <=? checkpoint_value env w
       then es_checkpoint w else Some (start_block env)).
Proof.
  intros Hh. destruct (reset_chain_healthy env fuel w Hh) as (w' & Hr & Ha & Hck).
  exists w'. split; [exact Hr|]. rewrite Ha. split; [|split; [|split; [|exact Hck]]].
  - apply Forall_forall. intros a Hin.
    apply list_elem_of_In, filter_In in Hin as [Hin Hkeep].
    intros Hchain. apply negb_true_iff, bool_decide_eq_false in Hkeep. apply Hkeep.
    apply list_elem_of_fmap. exists a. split; [reflexivity|].
    apply list_elem_of_In, filter_In. split; [exact Hin|].
    unfold in_chain. apply Z.eqb_eq. exact Hchain.
  - intros a Hin. apply list_elem_of_In, filter_In in Hin as [Hin _].
    apply list_elem_of_In. exact Hin.
  - intros a Hin Hid. apply list_elem_of_In, filter_In. split.
    + apply list_elem_of_In. exact Hin.
    + apply negb_true_iff, bool_decide_eq_false. exact Hid.
Qed.

(** When a search for the documents of the chain fails, the clean start
    is abandoned with that exception: nothing is deleted and the checkpoint
    is not written. *)
Theorem reset_chain_search_fails fuel w e :
  es_outcome env (es_calls w) = Fails e \/
  (es_outcome env (es_calls w) = Healthy /\ es_outcome env (S (es_calls w)) = Fails e) ->
  exists w',
    reset_chain env fuel w = Raise e w' /\
    es_assets w' = es_assets w /\ es_checkpoint w' = es_checkpoint w.
Proof.
  intros [Ho|[Ho1 Ho2]]; unfold reset_chain, get_assets_in_chain;
    unfold bind, es_search, es_call, bind.
  - rewrite Ho. simpl. eexists. split; [reflexivity|]. split; reflexivity.
  - rewrite Ho1. simpl. rewrite Ho2. simpl.
    eexists. split; [reflexivity|]. split; reflexivity.
Qed.

Lemma delete_assets_never_raise (doomed : list Asset) : forall w,
  exists w',
    for_each doomed
      (fun asset =>
         try_except (es_delete env (id asset)) is_Exception
           (fun e => logger ERROR ("Delete asset failed: " ++ exn_str e))) w
    = Ret tt w' /\
    es_checkpoint w' = es_checkpoint w /\
    es_calls w' = (es_calls w + length doomed)%nat /\
    (forall a, a ∈ es_assets w' -> a ∈ es_assets w).
Proof.
  induction doomed as [|a doomed IH]; intros w; simpl.
  - exists w. split; [reflexivity|]. split; [reflexivity|]. split; [lia|auto].
  - unfold bind at 1. unfold try_except, es_delete, es_call, bind.
    destruct (es_outcome env (es_calls w)) as [| |e]; simpl.
    + destruct (existsb _ (es_assets w)); simpl;
        match goal with |- context [for_each doomed ?f ?w1] =>
          destruct (IH w1) as (w' & Hr & Hck & Hc & Hsub) end;
        exists w'; (split; [exact Hr|]); simpl in *;
        (split; [exact Hck|]); (split; [lia|]); intros b Hb; apply Hsub in Hb; auto.
      apply list_elem_of_In, filter_In in Hb as [Hb _]. apply list_elem_of_In. exact Hb.
    + match goal with |- context [for_each doomed ?f ?w1] =>
        destruct (IH w1) as (w' & Hr & Hck & Hc & Hsub) end.
      exists w'. split; [exact Hr|]. simpl in *. split; [exact Hck|]. split; [lia|auto].
    + match goal with |- context [for_each doomed ?f ?w1] =>
        destruct (IH w1) as (w' & Hr & Hck & Hc & Hsub) end.
      exists w'. split; [exact Hr|]. simpl in *. split; [exact Hck|]. split; [lia|auto].
Qed.

(** Once the two searches have answered, no failure of a deletion stops the
    clean start: every document found is tried once, and the checkpoint is
    then stored from a state in which it has not been touched and no
    document has been added. *)
Theorem reset_chain_deletions_isolated fuel w :
  es_outcome env (es_calls w) = Healthy ->
  es_outcome env (S (es_calls w)) = Healthy ->
  exists w2,
    reset_chain env fuel w = store_last_processed_block env fuel (start_block env) w2 /\
    es_checkpoint w2 = es_checkpoint w /\
    es_calls w2
    = (es_calls w + 2 + length (List.filter (in_chain env) (es_assets w)))%nat /\
    (forall a, a ∈ es_assets w2 -> a ∈ es_assets w).
Proof.
  intros Ho1 Ho2. unfold reset_chain, get_assets_in_chain.
  unfold bind at 1 2 3. unfold es_search, es_call, bind. rewrite Ho1. simpl.
  rewrite Ho2. simpl. rewrite firstn_all.
  match goal with |- context [for_each ?d ?f ?w1] =>
    destruct (delete_assets_never_raise d w1) as (w2 & Hr & Hck & Hc & Hsub) end.
  exists w2. rewrite Hr. split; [reflexivity|]. simpl in *.
  split; [exact Hck|]. split; [lia|exact Hsub].
Qed.

End checkpoint_more.

(** *** The scanner at its edges *)

Section scanner_more.

Variable env : Env.

Lemma get_event_logs_loop_spins h from_block to_block chunk_size :
  ledger_up env -> chunk_size <= 0 ->
  forall fuel _from _to all_logs w,
    _from <= to_block -> _to + 1 <= to_block ->
    get_event_logs_loop env fuel h from_block to_block chunk_size _from _to all_logs w
    = Diverge.
Proof.
  intros Hup Hc. induction fuel as [|fuel IH]; intros _from _to all_logs w Hle Hto; simpl.
  - rewrite (proj2 (Z.leb_le _ _) Hle). reflexivity.
  - rewrite (proj2 (Z.leb_le _ _) Hle).
    destruct (Hup {| topics := [h]; fromBlock := _from; toBlock := _to |})
      as (found & Hfound).
    unfold bind at 1. unfold web3_get_logs, bind, record_query. simpl.
    rewrite Hfound. simpl.
    destruct ((_from - from_block) `mod` 1000 =? 0); simpl; apply IH; lia.
Qed.

(** An empty range is scanned without any query, whatever the chunk size;
    a chunk size of zero or less on a non-empty range makes the loop query
    for ever. *)
Theorem get_event_logs_degenerate fuel event_name from_block to_block chunk_size w :
  (to_block < from_block ->
   exists w',
     get_event_logs env fuel event_name from_block to_block chunk_size w = Ret [] w' /\
     queries w' = queries w /\ scanned w w') /\
  (from_block <= to_block -> chunk_size <= 0 -> ledger_up env ->
   get_event_logs env fuel event_name from_block to_block chunk_size w = Diverge).
Proof.
  split.
  - intros Hlt. unfold get_event_logs.
    rewrite bool_decide_eq_true_2 by (destruct event_name; set_solver).
    simpl. unfold bind, logger.
    assert (Hloop : forall h a w0,
              get_event_logs_loop env fuel h from_block to_block chunk_size
                from_block a [] w0 = Ret [] w0).
    { intros h a w0. destruct fuel; simpl; rewrite (proj2 (Z.leb_gt _ _)) by lia;
        reflexivity. }
    rewrite Hloop. eexists. split; [reflexivity|]. simpl. unfold scanned. simpl. tauto.
  - intros Hle Hc Hup. unfold get_event_logs.
    rewrite bool_decide_eq_true_2 by (destruct event_name; set_solver).
    simpl. unfold bind, logger.
    rewrite get_event_logs_loop_spins; [reflexivity|assumption|assumption|lia|lia].
Qed.

Lemma get_event_logs_loop_aborts h from_block to_block chunk_size e :
  forall fuel _from _to all_logs w before r after,
    scan_ranges fuel to_block chunk_size _from _to = (before ++ r :: after)%list ->
    Forall (fun r' => exists found,
              get_logs env {| topics := [h]; fromBlock := r'.1; toBlock := r'.2 |}
              = inr found) before ->
    get_logs env {| topics := [h]; fromBlock := r.1; toBlock := r.2 |} = inl e ->
    exists w',
      get_event_logs_loop env fuel h from_block to_block chunk_size _from _to all_logs w
      = Raise e w' /\
      queries w'
      = (queries w
         ++ ((fun r' => {| topics := [h]; fromBlock := r'.1; toBlock := r'.2 |})
               <$> (before ++ [r])))%list /\
      scanned w w'.
Proof.
  induction fuel as [|fuel IH]; intros _from _to all_logs w before r after Hscan Hok Hfail;
    simpl in *.
  - destruct (_from <=? to_block); destruct before; discriminate.
  - destruct (_from <=? to_block); [|destruct before; discriminate].
    destruct before as [|p before]; simpl in Hscan; inversion Hscan; subst; clear Hscan.
    + unfold bind at 1. unfold web3_get_logs, bind, record_query. simpl in *.
      rewrite Hfail. simpl. eexists. split; [reflexivity|]. simpl.
      split; [reflexivity|]. unfold scanned. simpl. tauto.
    + apply Forall_cons in Hok as [(found & Hfound) Hok].
      unfold bind at 1. unfold web3_get_logs, bind, record_query. simpl in *.
      rewrite Hfound. simpl.
      destruct ((_from - from_block) `mod` 1000 =? 0); simpl;
        match goal with
        | |- context [get_event_logs_loop env fuel _ _ _ _ _ _ ?acc ?w2] =>
            destruct (IH _ _ acc w2 before r after H1 Hok Hfail) as (w' & Hr & Hq & Hs)
        end;
        exists w'; rewrite Hr; (split; [reflexivity|]);
        (split; [rewrite Hq; simpl; rewrite <- app_assoc; reflexivity|]);
        unfold scanned in *; simpl in *; intuition congruence.
Qed.

(** There is no retry of a failed query: the first [get_logs] call that
    raises ends [get_event_logs] with that exception, after the queries of
    the ranges before it and its own, and the logs found so far are lost
    to the caller. *)
Theorem get_event_logs_rpc_failure
    fuel event_name from_block to_block chunk_size w before r after e :
  scan_ranges fuel to_block chunk_size from_block
    (Z.min (from_block + chunk_size - 1) to_block)
  = (before ++ r :: after)%list ->
  Forall (fun r' => exists found,
            get_logs env (query_for env event_name r') = inr found) before ->
  get_logs env (query_for env event_name r) = inl e ->
  exists w',
    get_event_logs env fuel event_name from_block to_block chunk_size w = Raise e w' /\
    queries w' = (queries w ++ (query_for env event_name <$> (before ++ [r])))%list /\
    scanned w w'.
Proof.
  intros Hscan Hok Hfail. unfold get_event_logs.
  rewrite bool_decide_eq_true_2 by (destruct event_name; set_solver).
  simpl. unfold bind at 1. unfold logger at 1.
  match goal with |- context [bind (get_event_logs_loop env fuel ?h _ _ _ _ _ _) _ ?w1] =>
    destruct (get_event_logs_loop_aborts h from_block to_block chunk_size e
                fuel from_block _ [] w1 before r after Hscan Hok Hfail)
      as (w' & Hr & Hq & Hs) end.
  unfold bind. rewrite Hr. exists w'. split; [reflexivity|]. split.
  - rewrite Hq. reflexivity.
  - unfold scanned in *. simpl in *. intuition congruence.
Qed.

Lemma concat_concat_fmap {A B C} (f : B -> list C) (g : A -> list B) (l : list A) :
  concat ((fun x => concat (f <$> g x)) <$> l) = concat (f <$> concat (g <$> l)).
Proof.
  induction l as [|x l IH]; [reflexivity|].
  rewrite !fmap_cons. cbn [concat]. rewrite fmap_app, concat_app, IH. reflexivity.
Qed.

(** On a node that answers block by block, what [get_event_logs] returns
    does not depend on the chunk size: it is the logs of the blocks of
    [[from_block, to_block]], in the order of the blocks. *)
Theorem get_event_logs_block_indexed
    per_block fuel event_name from_block to_block chunk_size w :
  block_indexed env per_block ->
  from_block <= to_block -> 1 <= chunk_size ->
  (chunks from_block to_block chunk_size <= fuel)%nat ->
  exists w',
    get_event_logs env fuel event_name from_block to_block chunk_size w
    = Ret (concat (per_block [keccak env (hash_text event_name)]
                     <$> seqZ from_block (to_block - from_block + 1))) w'.
Proof.
  intros Hbi Hle Hc Hfuel.
  assert (Hup : ledger_up env) by (intros q; eexists; apply Hbi).
  destruct (get_event_logs_runs env fuel event_name from_block to_block chunk_size w
              Hup Hc ltac:(lia) Hfuel) as (w' & Hr & _).
  destruct (scan_ranges_partition to_block chunk_size fuel from_block Hc ltac:(lia) Hfuel)
    as (Hcat & _).
  cbv zeta in *. exists w'. rewrite Hr. f_equal.
  set (rs := scan_ranges fuel to_block chunk_size from_block _) in *.
  replace (to_block - from_block + 1) with (to_block + 1 - from_block) by lia.
  rewrite <- Hcat, <- concat_concat_fmap, <- list_fmap_compose. f_equal.
  apply list_fmap_ext. intros i r _. simpl.
  unfold logs_of. rewrite Hbi. reflexivity.
Qed.

End scanner_more.

(** *** What a computation leaves of the checkpoint *)

Section keeps.

Variable env : Env.
Variable P : World -> World -> Prop.
Hypothesis P_frame : forall w w', es_checkpoint w' = es_checkpoint w -> P w w'.
Hypothesis P_trans : forall w1 w2 w3, P w1 w2 -> P w2 w3 -> P w1 w3.

Lemma keeps_ret {A} (a : A) : keeps P (ret a).
Proof. intros w. apply P_frame. reflexivity. Qed.

Lemma keeps_raise {A} (e : exn) : keeps P (raise (A := A) e).
Proof. intros w. apply P_frame. reflexivity. Qed.

Lemma keeps_diverge {A} : keeps P (diverge (A := A)).
Proof. intros w. exact I. Qed.

Lemma keeps_lift {A} (r : exn + A) : keeps P (lift r).
Proof. destruct r; intros w; apply P_frame; reflexivity. Qed.

Lemma keeps_first_of {A} (t : list A) : keeps P (first_of t).
Proof. destruct t; intros w; apply P_frame; reflexivity. Qed.

Lemma keeps_bind {A B} (m : M A) (k : A -> M B) :
  keeps P m -> (forall a, keeps P (k a)) -> keeps P (bind m k).
Proof.
  intros Hm Hk w. unfold bind. specialize (Hm w).
  destruct (m w) as [a w1|e w1|]; [|exact Hm|exact I].
  specialize (Hk a w1). destruct (k a w1) as [b w2|e w2|]; eauto.
Qed.

Lemma keeps_try_except {A} (m : M A) catches handler :
  keeps P m -> (forall e, keeps P (handler e)) -> keeps P (try_except m catches handler).
Proof.
  intros Hm Hh w. unfold try_except. specialize (Hm w).
  destruct (m w) as [a w1|e w1|]; [exact Hm| |exact I].
  destruct (catches e); [|exact Hm].
  specialize (Hh e w1). destruct (handler e w1) as [b w2|e' w2|]; eauto.
Qed.

Lemma keeps_for_each {A} (xs : list A) (body : A -> M unit) :
  (forall x, keeps P (body x)) -> keeps P (for_each xs body).
Proof.
  intros Hb. induction xs as [|x xs IH]; simpl.
  - apply keeps_ret.
  - apply keeps_bind; [apply Hb|intros _; exact IH].
Qed.

Lemma keeps_logger lvl msg : keeps P (logger lvl msg).
Proof. intros w. apply P_frame. reflexivity. Qed.

Lemma keeps_sleep seconds : keeps P (sleep seconds).
Proof. intros w. apply P_frame. reflexivity. Qed.

Lemma keeps_record_query q : keeps P (record_query q).
Proof. intros w. apply P_frame. reflexivity. Qed.

Lemma keeps_record_dispatch d : keeps P (record_dispatch d).
Proof. intros w. apply P_frame. reflexivity. Qed.

Lemma keeps_es_call : keeps P (es_call env).
Proof. intros w. apply P_frame. reflexivity. Qed.

Create HintDb keeps.

#[local] Hint Resolve keeps_ret keeps_raise keeps_diverge keeps_lift keeps_first_of
  keeps_logger keeps_sleep keeps_record_query keeps_record_dispatch keeps_es_call
  : keeps.

Ltac keeps_tac :=
  repeat first
    [ solve [auto with keeps]
    | apply keeps_bind; [|intros ?]
    | apply keeps_try_except; [|intros ?]
    | apply keeps_for_each; intros ?
    | match goal with
      | |- keeps P (if ?c then _ else _) => destruct c
      | |- keeps P (match ?x with _ => _ end) => destruct x
      end ].

Lemma keeps_es_ping : keeps P (es_ping env).
Proof. unfold es_ping. keeps_tac. Qed.

Lemma keeps_es_get_last_block : keeps P (es_get_last_block env).
Proof.
  unfold es_get_last_block. apply keeps_bind; [auto with keeps|].
  intros [| |e]; [|auto with keeps..].
  intros w. destruct (es_checkpoint w); apply P_frame; reflexivity.
Qed.

#[local] Hint Resolve keeps_es_ping keeps_es_get_last_block : keeps.

Lemma keeps_wait_for_es fuel : keeps P (wait_for_es env fuel).
Proof. induction fuel as [|fuel IH]; simpl; keeps_tac. Qed.

#[local] Hint Resolve keeps_wait_for_es : keeps.

Lemma keeps_get_last_processed_block fuel :
  keeps P (get_last_processed_block env fuel).
Proof. unfold get_last_processed_block. cbv zeta. keeps_tac. Qed.

Lemma keeps_get_event_logs_loop h from_block to_block chunk_size fuel :
  forall _from _to all_logs,
    keeps P (get_event_logs_loop env fuel h from_block to_block chunk_size
               _from _to all_logs).
Proof.
  induction fuel as [|fuel IH]; intros _from _to all_logs; simpl.
  - keeps_tac.
  - destruct (_from <=? to_block); [|keeps_tac]. cbv zeta. unfold web3_get_logs.
    apply keeps_bind; [keeps_tac|]. intros found.
    apply keeps_bind; [keeps_tac|]. intros _. apply IH.
Qed.

#[local] Hint Resolve keeps_get_last_processed_block keeps_get_event_logs_loop : keeps.

Lemma keeps_get_event_logs fuel event_name from_block to_block chunk_size :
  keeps P (get_event_logs env fuel event_name from_block to_block chunk_size).
Proof. unfold get_event_logs. cbv zeta. keeps_tac. Qed.

#[local] Hint Resolve keeps_get_event_logs : keeps.

Lemma keeps_handle_regular_event_processor fuel event_name processor from_block to_block :
  keeps P (handle_regular_event_processor env fuel event_name processor
             from_block to_block).
Proof. unfold handle_regular_event_processor. keeps_tac. Qed.

Lemma keeps_handle_price_change fuel from_block to_block :
  keeps P (handle_price_change env fuel from_block to_block).
Proof. unfold handle_price_change. keeps_tac. Qed.

Lemma keeps_handle_token_uri_update fuel from_block to_block :
  keeps P (handle_token_uri_update env fuel from_block to_block).
Proof. unfold handle_token_uri_update. keeps_tac. Qed.

#[local] Hint Resolve keeps_handle_regular_event_processor keeps_handle_price_change
  keeps_handle_token_uri_update : keeps.

(** From here on the write of the checkpoint is assumed to keep [P]. *)
Hypothesis P_store : forall fuel block,
  keeps P (store_last_processed_block env fuel block).

#[local] Hint Resolve P_store : keeps.

Lemma keeps_process_block_range fuel from_block to_block :
  keeps P (process_block_range env fuel from_block to_block).
Proof. unfold process_block_range. keeps_tac. Qed.

#[local] Hint Resolve keeps_process_block_range : keeps.

Lemma keeps_py_range start stop step : keeps P (py_range start stop step).
Proof. unfold py_range. cbv zeta. keeps_tac. Qed.

Lemma keeps_chunk_loop fuel ends : forall start_block_chunk end_block_chunk,
  keeps P (chunk_loop env fuel start_block_chunk ends end_block_chunk).
Proof.
  induction ends as [|e ends IH]; intros start_block_chunk end_block_chunk; simpl.
  - keeps_tac.
  - apply keeps_bind; [keeps_tac|]. intros _. apply IH.
Qed.

#[local] Hint Resolve keeps_py_range keeps_chunk_loop : keeps.

Lemma keeps_process_current_blocks fuel : keeps P (process_current_blocks env fuel).
Proof. unfold process_current_blocks. cbv zeta. keeps_tac. Qed.

#[local] Hint Resolve keeps_process_current_blocks : keeps.

Lemma keeps_do_run_monitor fuel : keeps P (do_run_monitor env fuel).
Proof.
  intros w. unfold do_run_monitor.
  destruct (monitor_is_on w); simpl; [|apply P_frame; reflexivity].
  match goal with |- match ?m w with _ => _ end => assert (Hk : keeps P m) end.
  { keeps_tac. }
  apply Hk.
Qed.

Lemma keeps_run_monitor_iterations fuel n :
  keeps P (run_monitor_iterations env n fuel).
Proof.
  induction n as [|n IH]; simpl.
  - apply keeps_ret.
  - apply keeps_bind; [apply keeps_do_run_monitor|]. intros _.
    apply keeps_bind; [apply keeps_sleep|]. intros _. exact IH.
Qed.

End keeps.

(** *** The dispatcher and the cycle *)

Section cycle.

Variable env : Env.

Lemma same_checkpoint_frame (w w' : World) :
  es_checkpoint w' = es_checkpoint w -> same_checkpoint w w'.
Proof. auto. Qed.

Lemma same_checkpoint_trans (w1 w2 w3 : World) :
  same_checkpoint w1 w2 -> same_checkpoint w2 w3 -> same_checkpoint w1 w3.
Proof. unfold same_checkpoint. congruence. Qed.

Lemma not_lower_frame (w w' : World) :
  es_checkpoint w' = es_checkpoint w -> not_lower env w w'.
Proof. unfold not_lower, checkpoint_value. intros ->. lia. Qed.

Lemma not_lower_trans (w1 w2 w3 : World) :
  not_lower env w1 w2 -> not_lower env w2 w3 -> not_lower env w1 w3.
Proof. unfold not_lower. lia. Qed.

(** [handle_token_uri_update] isolates every event entirely: whatever the
    processors do, the handler returns once the scan has, the events whose
    processor ran to its end are dispatched in order and each of the others
    leaves one entry of level [ERROR] in the log. *)
Theorem handle_token_uri_update_isolation fuel from_block to_block w events w1 :
  get_event_logs env fuel EVENT_TOKEN_URI_UPDATE from_block to_block 1000 w
  = Ret events w1 ->
  exists w2,
    handle_token_uri_update env fuel from_block to_block w = Ret tt w2 /\
    processed w2 = (processed w1 ++ omap (token_uri_dispatched env) events)%list /\
    logs w2 = (logs w1 ++ omap (token_uri_logged env) events)%list /\
    dispatched w1 w2.
Proof.
  intros Hget. unfold handle_token_uri_update, bind at 1. rewrite Hget.
  clear Hget w.
  match goal with |- context [for_each events ?f] => set (body := f) end.
  revert w1. induction events as [|event events IH]; intros w1.
  - exists w1. simpl. rewrite !app_nil_r. unfold dispatched. tauto.
  - cbn [for_each omap list_omap]. unfold bind at 1. unfold body at 1.
    unfold token_uri_dispatched at 1, token_uri_logged at 1.
    unfold try_except, bind, lift.
    destruct (token_uri_process env event) as [e|[]]; cbn [ret raise is_Exception].
    + unfold logger at 1.
      match goal with |- context [for_each events body ?w2] =>
        destruct (IH w2) as (w3 & Hrun & Hp & Hl & Hs) end.
      exists w3. cbn in Hp, Hl. rewrite Hrun, Hp, Hl, <- app_assoc.
      unfold dispatched in *. cbn in *. tauto.
    + unfold record_dispatch at 1.
      match goal with |- context [for_each events body ?w2] =>
        destruct (IH w2) as (w3 & Hrun & Hp & Hl & Hs) end.
      exists w3. cbn in Hp, Hl. rewrite Hrun, Hp, Hl, <- app_assoc.
      unfold dispatched in *. cbn in *. tauto.
Qed.

Lemma store_last_processed_block_post fuel block w :
  match store_last_processed_block env fuel block w with
  | Ret _ w' => es_checkpoint w' = es_checkpoint w \/ es_checkpoint w' = Some block
  | Raise _ w' => es_checkpoint w' = es_checkpoint w
  | Diverge => True
  end.
Proof.
  unfold store_last_processed_block, bind.
  pose proof (get_last_processed_block_post env fuel w) as P.
  destruct (get_last_processed_block env fuel w) as [stored w1|e w1|];
    [|contradiction|exact I].
  destruct P as (Hq & _).
  assert (Hck : es_checkpoint w1 = es_checkpoint w) by quiet_tac.
  destruct (block <=? stored); [left; exact Hck|].
  unfold try_except, es_index_last_block, es_call, bind.
  destruct (es_outcome env (es_calls w1)) as [| |e]; simpl; auto.
  destruct (is_RequestError e); simpl; auto.
Qed.

(** The body of [process_block_range] up to the write of the checkpoint. *)
Local Abbreviation handlers fuel from_block to_block :=
  (for_each event_processors
     (fun entry =>
        handle_regular_event_processor env fuel entry.1 entry.2 from_block to_block) ;;
   handle_price_change env fuel from_block to_block ;;
   handle_token_uri_update env fuel from_block to_block).

Ltac frames :=
  try exact same_checkpoint_frame; try exact same_checkpoint_trans;
  try exact not_lower_frame; try exact not_lower_trans.

Lemma handlers_keep_checkpoint fuel from_block to_block :
  keeps same_checkpoint (handlers fuel from_block to_block).
Proof.
  apply keeps_bind; frames.
  - apply keeps_for_each; frames. intros entry.
    apply keeps_handle_regular_event_processor; frames.
  - intros _. apply keeps_bind; frames.
    + apply keeps_handle_price_change; frames.
    + intros _. apply keeps_handle_token_uri_update; frames.
Qed.

Lemma process_block_range_unfold fuel from_block to_block w :
  from_block <= to_block ->
  process_block_range env fuel from_block to_block w
  = (logger DEBUG ("Metadata monitor >>>> from_block:" ++ pretty from_block
                   ++ ", current_block:" ++ pretty to_block ++ " <<<<") ;;
     handlers fuel from_block to_block ;;
     store_last_processed_block env fuel to_block) w.
Proof.
  intros Hle. unfold process_block_range, bind, logger.
  rewrite (proj2 (Z.ltb_ge _ _)) by lia.
  destruct (for_each _ _ _) as [[] w1|e w1|]; [|reflexivity..].
  destruct (handle_price_change env fuel from_block to_block w1) as [[] w2|e w2|];
    [|reflexivity..].
  destruct (handle_token_uri_update env fuel from_block to_block w2) as [[] w3|e w3|];
    reflexivity.
Qed.

(** The checkpoint is written at the end of a range only: when
    [process_block_range] raises, whoever raised, the checkpoint is as it
    was, and when it returns the checkpoint is as it was or is [to_block]. *)
Theorem process_block_range_checkpoint fuel from_block to_block w :
  match process_block_range env fuel from_block to_block w with
  | Ret _ w' => es_checkpoint w' = es_checkpoint w \/ es_checkpoint w' = Some to_block
  | Raise _ w' => es_checkpoint w' = es_checkpoint w
  | Diverge => True
  end.
Proof.
  destruct (Z.lt_ge_cases to_block from_block) as [Hlt|Hge].
  - unfold process_block_range, bind, logger.
    rewrite (proj2 (Z.ltb_lt _ _) Hlt). simpl. left. reflexivity.
  - rewrite process_block_range_unfold by lia. unfold bind at 1, logger at 1.
    match goal with |- context [bind _ _ ?w0] => set (w1 := w0) end.
    assert (Hw1 : es_checkpoint w1 = es_checkpoint w) by reflexivity.
    unfold bind at 1.
    pose proof (handlers_keep_checkpoint fuel from_block to_block w1) as Hk.
    destruct (handlers fuel from_block to_block w1) as [[] w2|e w2|]; [| |exact I].
    + unfold same_checkpoint in Hk.
      pose proof (store_last_processed_block_post fuel to_block w2) as Hs.
      destruct (store_last_processed_block env fuel to_block w2) as [[] w3|e w3|];
        [|congruence|exact I].
      destruct Hs as [Hs|Hs]; [left; congruence|right; exact Hs].
    + unfold same_checkpoint in Hk. congruence.
Qed.

Lemma store_keeps_not_lower fuel block :
  healthy env -> keeps (not_lower env) (store_last_processed_block env fuel block).
Proof.
  intros Hh w. destruct fuel as [|fuel].
  - unfold store_last_processed_block, get_last_processed_block, bind, try_except.
    simpl. exact I.
  - destruct (store_last_processed_block_healthy env fuel block w Hh)
      as (w' & Hs & Hck & _).
    rewrite Hs. unfold not_lower.
    rewrite (checkpoint_value_after_store env w w' block Hck).
    destruct (0 <=? block); lia.
Qed.

(** With a store that answers, the value read from the checkpoint never
    goes down, whatever the ledger node and the processors do: neither
    across a scan cycle, whether it returns or raises, nor across any
    number of iterations of the background loop. *)
Theorem checkpoint_never_lowered fuel :
  healthy env ->
  (forall w,
      match process_current_blocks env fuel w with
      | Ret _ w' | Raise _ w' => checkpoint_value env w <= checkpoint_value env w'
      | Diverge => True
      end) /\
  (forall n w,
      match run_monitor_iterations env n fuel w with
      | Ret _ w' | Raise _ w' => checkpoint_value env w <= checkpoint_value env w'
      | Diverge => True
      end).
Proof.
  intros Hh. split.
  - apply (keeps_process_current_blocks env (not_lower env)); frames.
    intros f b. apply store_keeps_not_lower. exact Hh.
  - intros n. apply (keeps_run_monitor_iterations env (not_lower env)); frames.
    intros f b. apply store_keeps_not_lower. exact Hh.
Qed.

Lemma py_range_forward start stop step :
  0 < step -> start < stop ->
  exists ends,
    py_range start stop step = ret ends /\
    ends <> [] /\
    Forall (fun e => start <= e < stop) ends.
Proof.
  intros Hstep Hlt. unfold py_range.
  rewrite (proj2 (Z.eqb_neq step 0)) by lia.
  rewrite (proj2 (Z.ltb_lt 0 step)) by lia.
  set (n := (stop - start + step - 1) `div` step).
  assert (Hn : 1 <= n) by (apply Z.div_le_lower_bound; lia).
  assert (Hmul : step * n <= stop - start + step - 1) by (apply Z.mul_div_le; lia).
  eexists. split; [reflexivity|]. split.
  - rewrite seqZ_cons by lia. discriminate.
  - apply Forall_fmap, Forall_forall. intros i Hi.
    apply elem_of_seqZ in Hi. simpl. nia.
Qed.

Lemma process_block_range_healthy_post fuel from_block to_block w :
  healthy env ->
  match process_block_range env fuel from_block to_block w with
  | Ret _ w' =>
      (to_block < from_block /\ es_checkpoint w' = es_checkpoint w) \/
      es_checkpoint w'
      = (if to_block <=? checkpoint_value env w
         then es_checkpoint w else Some to_block)
  | Raise _ w' => es_checkpoint w' = es_checkpoint w
  | Diverge => True
  end.
Proof.
  intros Hh. destruct (Z.lt_ge_cases to_block from_block) as [Hlt|Hge].
  - unfold process_block_range, bind, logger.
    rewrite (proj2 (Z.ltb_lt _ _) Hlt). simpl. left. split; [lia|reflexivity].
  - rewrite process_block_range_unfold by lia. unfold bind at 1, logger at 1.
    match goal with |- context [bind _ _ ?w0] => set (w1 := w0) end.
    assert (Hw1 : es_checkpoint w1 = es_checkpoint w) by reflexivity.
    unfold bind at 1.
    pose proof (handlers_keep_checkpoint fuel from_block to_block w1) as Hk.
    destruct (handlers fuel from_block to_block w1) as [[] w2|e w2|]; [| |exact I].
    + unfold same_checkpoint in Hk. destruct fuel as [|fuel].
      * unfold store_last_processed_block, get_last_processed_block, bind, try_except.
        simpl. exact I.
      * destruct (store_last_processed_block_healthy env fuel to_block w2 Hh)
          as (w3 & Hs & Hck & _).
        rewrite Hs. right. rewrite Hck. unfold checkpoint_value.
        rewrite Hk, Hw1. reflexivity.
    + unfold same_checkpoint in Hk. congruence.
Qed.

Lemma chunk_loop_below fuel cur : healthy env ->
  forall ends start_block_chunk end_block_chunk w,
    Forall (fun e => e < cur) ends ->
    checkpoint_value env w < cur ->
    match chunk_loop env fuel start_block_chunk ends end_block_chunk w with
    | Ret r w' =>
        checkpoint_value env w' < cur /\
        (r = end_block_chunk \/ exists e, r = Some e /\ e < cur)
    | _ => True
    end.
Proof.
  intros Hh. induction ends as [|e ends IH];
    intros start_block_chunk end_block_chunk w Hends Hw; simpl.
  - split; [exact Hw|left; reflexivity].
  - apply Forall_cons in Hends as [He Hends]. unfold bind.
    pose proof (process_block_range_healthy_post fuel start_block_chunk e w Hh) as Hp.
    destruct (process_block_range env fuel start_block_chunk e w) as [[] w1|x w1|];
      [|exact I..].
    assert (Hw1 : checkpoint_value env w1 < cur).
    { destruct Hp as [[_ Hp]|Hp].
      - unfold checkpoint_value. rewrite Hp. exact Hw.
      - rewrite (checkpoint_value_after_store env w w1 e Hp).
        destruct (0 <=? e); lia. }
    specialize (IH e (Some e) w1 Hends Hw1).
    destruct (chunk_loop env fuel e ends (Some e) w1) as [r w2|x w2|]; [|exact I..].
    destruct IH as [Hw2 [->|Hr]]; (split; [exact Hw2|]); right; eauto.
Qed.

(** With a store that answers, a scan cycle that returns with a head above
    the checkpoint leaves the checkpoint at the head, whatever the outer
    chunk size, the ledger node and the processors. *)
Theorem process_current_blocks_reaches_head fuel w w' head cur :
  healthy env ->
  block_number env = inr head ->
  truthy head = true -> as_int head = Some cur ->
  checkpoint_value env w < cur ->
  process_current_blocks env fuel w = Ret tt w' ->
  es_checkpoint w' = Some cur.
Proof.
  intros Hh Hhead Htruthy Hint Hbelow.
  destruct fuel as [|fuel].
  { unfold process_current_blocks, get_last_processed_block, bind, try_except.
    simpl. discriminate. }
  destruct (get_last_processed_block_healthy env fuel w Hh) as (w0 & Hr0 & Hq0 & _).
  assert (Hck0 : es_checkpoint w0 = es_checkpoint w) by quiet_tac.
  unfold process_current_blocks, bind at 1. rewrite Hr0.
  unfold bind at 1. rewrite Hhead. cbn [lift ret]. rewrite Htruthy. cbn [negb].
  rewrite Hint. fold (checkpoint_value env w).
  rewrite (proj2 (Z.leb_gt _ _) Hbelow).
  set (chunk := blockchain_chunk_size env).
  destruct (Z.lt_trichotomy chunk 0) as [Hneg|[Hzero|Hpos]].
  - (* the range is empty and [end_block_chunk] is unbound *)
    unfold bind at 1, py_range.
    rewrite (proj2 (Z.eqb_neq chunk 0)) by lia.
    rewrite (proj2 (Z.ltb_ge 0 chunk)) by lia.
    rewrite seqZ_nil; [simpl; discriminate|].
    apply Z.lt_succ_r. apply Z.div_lt_upper_bound; lia.
  - unfold bind at 1, py_range. rewrite Hzero. simpl. discriminate.
  - destruct (py_range_forward (checkpoint_value env w) cur chunk Hpos Hbelow)
      as (ends & Hrange & Hne & Hends).
    unfold bind at 1. rewrite Hrange. cbn [ret].
    assert (Hw0 : checkpoint_value env w0 < cur)
      by (unfold checkpoint_value; rewrite Hck0; exact Hbelow).
    pose proof (chunk_loop_below (S fuel) cur Hh ends (checkpoint_value env w) None w0
                  ltac:(eapply Forall_impl; [exact Hends|intros; simpl in *; lia]) Hw0)
      as Hloop.
    unfold bind at 1.
    destruct (chunk_loop env (S fuel) (checkpoint_value env w) ends None w0)
      as [r w1|x w1|]; [|discriminate..].
    destruct Hloop as [Hw1 Hr]. destruct r as [end_block_chunk|]; [|discriminate].
    assert (Hend : end_block_chunk < cur).
    { destruct Hr as [Hr|(e & [= ->] & He)]; [discriminate|exact He]. }
    intros Hfinal.
    pose proof (process_block_range_healthy_post (S fuel) end_block_chunk cur w1 Hh) as Hp.
    rewrite Hfinal in Hp. destruct Hp as [[Habs _]|Hp]; [lia|].
    rewrite Hp. rewrite (proj2 (Z.leb_gt _ _) Hw1). reflexivity.
Qed.

(** An outer chunk size of zero makes [range] raise [ValueError]; a
    negative one leaves the loop variable unbound, so that the call after
    the loop raises [UnboundLocalError].  In both cases the cycle ends
    before any scan, in the state the read of the checkpoint left. *)
Theorem process_current_blocks_bad_chunk_size fuel w last_block w1 head cur :
  get_last_processed_block env fuel w = Ret last_block w1 ->
  block_number env = inr head ->
  truthy head = true -> as_int head = Some cur ->
  last_block < cur ->
  (blockchain_chunk_size env = 0 ->
   process_current_blocks env fuel w = Raise ValueError w1) /\
  (blockchain_chunk_size env < 0 ->
   process_current_blocks env fuel w = Raise UnboundLocalError w1).
Proof.
  intros Hget Hhead Htruthy Hint Hlt.
  split; intros Hsize;
    unfold process_current_blocks, bind at 1; rewrite Hget;
    unfold bind at 1; rewrite Hhead; cbn [lift ret]; rewrite Htruthy; cbn [negb];
    rewrite Hint; rewrite (proj2 (Z.leb_gt _ _) Hlt).
  - unfold bind at 1, py_range. rewrite Hsize. reflexivity.
  - unfold bind at 1, py_range.
    rewrite (proj2 (Z.eqb_neq _ 0)) by lia.
    rewrite (proj2 (Z.ltb_ge 0 _)) by lia.
    rewrite seqZ_nil; [reflexivity|].
    apply Z.lt_succ_r. apply Z.div_lt_upper_bound; lia.
Qed.

(** No failure of the store, of the ledger node or of a processor ends the
    background loop: an iteration never raises, nor does any number of
    them.  The exception of a failed cycle is logged at level [ERROR], from
    the state in which the cycle was abandoned. *)
Theorem do_run_monitor_survives fuel :
  (forall n w,
      match run_monitor_iterations env n fuel w with
      | Raise _ _ => False
      | _ => True
      end) /\
  (forall w e w1,
      monitor_is_on w = true ->
      process_current_blocks env fuel w = Raise e w1 ->
      purgatory env = None ->
      do_run_monitor env fuel w
      = logger ERROR ("Error processing event: " ++ exn_str e ++ ".") w1).
Proof.
  split.
  - induction n as [|n IH]; intros w; simpl; [exact I|].
    unfold bind at 1. pose proof (do_run_monitor_returns env fuel w) as Hret.
    destruct (do_run_monitor env fuel w) as [[] w1|e w1|]; [|contradiction|exact I].
    unfold bind at 1, sleep at 1. apply IH.
  - intros w e w1 Hon Hraise Hnone. unfold do_run_monitor. rewrite Hon. cbn [negb].
    unfold bind, try_except. rewrite Hraise, Hnone. reflexivity.
Qed.

End cycle.

(** *** The further properties at concrete stores and ledgers *)

Lemma get_last_processed_block_retries_witness :
  (exists b w',
      get_last_processed_block (demo_env 7 42 (PyInt 1050) flaky [] [] []) 3
        (world_with true (Some 12) [])
      = Ret b w' /\
      slept w' = slept (world_with true (Some 12) []) + 5 * Z.of_nat 2 /\
      es_calls w' = 4%nat /\
      quiet (world_with true (Some 12) []) w') /\
  get_last_processed_block (demo_env 7 42 (PyInt 1050) (fun _ => Unreachable) [] [] []) 3
    (world_with true (Some 12) [])
  = Diverge.
Proof.
  split.
  - apply (proj1 (get_last_processed_block_retries
                    (demo_env 7 42 (PyInt 1050) flaky [] [] []) 3
                    (world_with true (Some 12) [])) 2%nat).
    + intros i Hi. destruct i as [|[|i]]; [reflexivity|reflexivity|lia].
    + reflexivity.
    + lia.
  - apply (proj2 (get_last_processed_block_retries
                    (demo_env 7 42 (PyInt 1050) (fun _ => Unreachable) [] [] []) 3
                    (world_with true (Some 12) []))).
    intros i. reflexivity.
Defined.

Lemma get_last_processed_block_ping_raises_witness :
  exists w',
    get_last_processed_block (demo_env 7 42 (PyInt 1050) first_call_breaks [] [] []) 1
      (world_with true (Some 12) [])
    = Ret 7 w' /\
    es_calls w' = 1%nat /\ slept w' = 0 /\ quiet (world_with true (Some 12) []) w'.
Proof.
  apply (get_last_processed_block_ping_raises
           (demo_env 7 42 (PyInt 1050) first_call_breaks [] [] []) 0
           (world_with true (Some 12) []) (OtherError "socket")).
  - reflexivity.
  - reflexivity.
Defined.

Lemma store_last_processed_block_rejected_witness :
  (exists w2,
      store_last_processed_block
        (demo_env 0 42 (PyInt 1050) (third_call_fails RequestError) [] [] []) 1 100
        (world_with true (Some 10) [])
      = Ret tt w2 /\
      es_checkpoint w2 = Some 10) /\
  (exists w2,
      store_last_processed_block
        (demo_env 0 42 (PyInt 1050) (third_call_fails TransportError) [] [] []) 1 100
        (world_with true (Some 10) [])
      = Raise TransportError w2 /\
      es_checkpoint w2 = Some 10).
Proof.
  split.
  - assert (Hget : exists w1,
               get_last_processed_block
                 (demo_env 0 42 (PyInt 1050) (third_call_fails RequestError) [] [] []) 1
                 (world_with true (Some 10) []) = Ret 10 w1 /\
               es_calls w1 = 2%nat)
      by (eexists; split; vm_compute; reflexivity).
    destruct Hget as (w1 & Hget & Hcalls).
    destruct (proj1 (store_last_processed_block_rejected
                       (demo_env 0 42 (PyInt 1050) (third_call_fails RequestError) [] [] [])
                       1 100 (world_with true (Some 10) []) 10 w1 Hget ltac:(lia)))
      as (w2 & Hs & Hck & _).
    + rewrite Hcalls. reflexivity.
    + exists w2. split; [exact Hs|exact Hck].
  - assert (Hget : exists w1,
               get_last_processed_block
                 (demo_env 0 42 (PyInt 1050) (third_call_fails TransportError) [] [] []) 1
                 (world_with true (Some 10) []) = Ret 10 w1 /\
               es_calls w1 = 2%nat)
      by (eexists; split; vm_compute; reflexivity).
    destruct Hget as (w1 & Hget & Hcalls).
    destruct (proj1 (proj2 (store_last_processed_block_rejected
                       (demo_env 0 42 (PyInt 1050) (third_call_fails TransportError) [] [] [])
                       1 100 (world_with true (Some 10) []) 10 w1 Hget ltac:(lia)))
                TransportError)
      as (w2 & Hs & Hck).
    + rewrite Hcalls. reflexivity.
    + reflexivity.
    + exists w2. split; [exact Hs|exact Hck].
Defined.

Lemma store_last_processed_block_running_max_witness :
  exists w',
    for_each [100; 50; 300; 200] (store_last_processed_block quiet_env 1)
      (world_with true (Some 10) [])
    = Ret tt w' /\
    checkpoint_value quiet_env w'
    = fold_left Z.max [100; 50; 300; 200]
        (checkpoint_value quiet_env (world_with true (Some 10) [])).
Proof.
  apply (store_last_processed_block_running_max quiet_env 0 [100; 50; 300; 200]).
  - intros n. reflexivity.
  - repeat constructor; lia.
Defined.

Lemma reset_chain_clears_chain_witness :
  exists w',
    reset_chain quiet_env 1 (world_with true (Some 10) four_assets) = Ret tt w' /\
    Forall (fun a => chainId a <> chain_id quiet_env) (es_assets w') /\
    (forall a, a ∈ es_assets w' -> a ∈ four_assets) /\
    (forall a, a ∈ four_assets ->
               id a ∉ id <$> List.filter (in_chain quiet_env) four_assets ->
               a ∈ es_assets w') /\
    es_checkpoint w'
    = (if start_block quiet_env
          <=? checkpoint_value quiet_env (world_with true (Some 10) four_assets)
       then Some 10 else Some (start_block quiet_env)).
Proof.
  apply (reset_chain_clears_chain quiet_env 0 (world_with true (Some 10) four_assets)).
  intros n. reflexivity.
Defined.

Lemma reset_chain_search_fails_witness :
  exists w',
    reset_chain (demo_env 0 42 (PyInt 1050) first_call_breaks [] [] []) 1
      (world_with true (Some 10) four_assets)
    = Raise (OtherError "socket") w' /\
    es_assets w' = four_assets /\ es_checkpoint w' = Some 10.
Proof.
  apply (reset_chain_search_fails
           (demo_env 0 42 (PyInt 1050) first_call_breaks [] [] []) 1
           (world_with true (Some 10) four_assets) (OtherError "socket")).
  left. reflexivity.
Defined.

Lemma reset_chain_deletions_isolated_witness :
  exists w2,
    reset_chain (demo_env 0 42 (PyInt 1050) deletions_fail [] [] []) 1
      (world_with true (Some 10) four_assets)
    = store_last_processed_block (demo_env 0 42 (PyInt 1050) deletions_fail [] [] []) 1
        42 w2 /\
    es_checkpoint w2 = Some 10 /\
    es_calls w2 = 5%nat /\
    (forall a, a ∈ es_assets w2 -> a ∈ four_assets).
Proof.
  apply (reset_chain_deletions_isolated
           (demo_env 0 42 (PyInt 1050) deletions_fail [] [] []) 1
           (world_with true (Some 10) four_assets)).
  - reflexivity.
  - reflexivity.
Defined.

Lemma get_event_logs_degenerate_witness :
  (exists w',
      get_event_logs quiet_env 1 EVENT_METADATA_CREATED 10 5 1000
        (world_with true (Some 0) [])
      = Ret [] w' /\
      queries w' = [] /\ scanned (world_with true (Some 0) []) w') /\
  get_event_logs quiet_env 1000 EVENT_METADATA_CREATED 0 10 0
    (world_with true (Some 0) [])
  = Diverge.
Proof.
  split.
  - apply (proj1 (get_event_logs_degenerate quiet_env 1 EVENT_METADATA_CREATED 10 5 1000
                    (world_with true (Some 0) []))).
    lia.
  - apply (proj2 (get_event_logs_degenerate quiet_env 1000 EVENT_METADATA_CREATED 0 10 0
                    (world_with true (Some 0) []))).
    + lia.
    + lia.
    + intros q. unfold quiet_env, demo_env, ledger. simpl.
      destruct (bool_decide _); eexists; reflexivity.
Defined.

Lemma get_event_logs_rpc_failure_witness :
  exists w',
    get_event_logs (rpc_down_from 1000) 3 EVENT_METADATA_CREATED 0 2500 1000
      (world_with true (Some 0) [])
    = Raise (OtherError "rpc") w' /\
    queries w'
    = query_for (rpc_down_from 1000) EVENT_METADATA_CREATED <$> [(0, 999); (1000, 1999)] /\
    scanned (world_with true (Some 0) []) w'.
Proof.
  apply (get_event_logs_rpc_failure (rpc_down_from 1000) 3 EVENT_METADATA_CREATED
           0 2500 1000 (world_with true (Some 0) [])
           [(0, 999)] (1000, 1999) [(2000, 2500)] (OtherError "rpc")).
  - vm_compute. reflexivity.
  - repeat constructor. eexists. reflexivity.
  - reflexivity.
Defined.

Lemma get_event_logs_block_indexed_witness :
  exists w',
    get_event_logs indexed_env 3 EVENT_METADATA_CREATED 0 5 2
      (world_with true (Some 0) [])
    = Ret (concat (even_blocks [keccak indexed_env (hash_text EVENT_METADATA_CREATED)]
                     <$> seqZ 0 (5 - 0 + 1))) w'.
Proof.
  apply (get_event_logs_block_indexed indexed_env even_blocks 3
           EVENT_METADATA_CREATED 0 5 2 (world_with true (Some 0) [])).
  - intros q. reflexivity.
  - lia.
  - lia.
  - vm_compute. lia.
Defined.

Lemma handle_token_uri_update_isolation_witness :
  exists w2,
    handle_token_uri_update token_uri_env 1 1 5 (world_with true (Some 0) []) = Ret tt w2 /\
    dispatch_event <$> processed w2 = (take 2 five_logs ++ drop 3 five_logs)%list /\
    length (logs w2) = 4%nat.
Proof.
  assert (Hget : exists w1,
             get_event_logs token_uri_env 1 EVENT_TOKEN_URI_UPDATE 1 5 1000
               (world_with true (Some 0) []) = Ret five_logs w1 /\
             processed w1 = [] /\ length (logs w1) = 3%nat)
    by (eexists; split; [vm_compute; reflexivity|split; reflexivity]).
  destruct Hget as (w1 & Hget & Hp1 & Hl1).
  destruct (handle_token_uri_update_isolation token_uri_env 1 1 5
              (world_with true (Some 0) []) five_logs w1 Hget)
    as (w2 & Hrun & Hp & Hl & _).
  exists w2. split; [exact Hrun|]. rewrite Hp, Hl, Hp1, length_app, Hl1.
  split; vm_compute; reflexivity.
Defined.

Lemma checkpoint_never_lowered_witness :
  exists w',
    process_current_blocks quiet_env 3 (world_with true (Some 10) []) = Ret tt w' /\
    checkpoint_value quiet_env (world_with true (Some 10) [])
    <= checkpoint_value quiet_env w'.
Proof.
  assert (Hrun : exists w',
             process_current_blocks quiet_env 3 (world_with true (Some 10) []) = Ret tt w')
    by (eexists; vm_compute; reflexivity).
  destruct Hrun as (w' & Hrun). exists w'. split; [exact Hrun|].
  pose proof (proj1 (checkpoint_never_lowered quiet_env 3 ltac:(intros n; reflexivity))
                (world_with true (Some 10) [])) as Hle.
  rewrite Hrun in Hle. exact Hle.
Defined.

Lemma process_current_blocks_reaches_head_witness :
  exists w',
    process_current_blocks quiet_env 3 (world_with true (Some 10) []) = Ret tt w' /\
    es_checkpoint w' = Some 1050.
Proof.
  assert (Hrun : exists w',
             process_current_blocks quiet_env 3 (world_with true (Some 10) []) = Ret tt w')
    by (eexists; vm_compute; reflexivity).
  destruct Hrun as (w' & Hrun). exists w'. split; [exact Hrun|].
  apply (process_current_blocks_reaches_head quiet_env 3
           (world_with true (Some 10) []) w' (PyInt 1050) 1050).
  - intros n. reflexivity.
  - reflexivity.
  - reflexivity.
  - reflexivity.
  - vm_compute. reflexivity.
  - exact Hrun.
Defined.

Lemma do_run_monitor_survives_witness :
  exists w1,
    process_current_blocks (rpc_down_from 1000) 3 (world_with true (Some 10) [])
    = Raise (OtherError "rpc") w1 /\
    do_run_monitor (rpc_down_from 1000) 3 (world_with true (Some 10) [])
    = logger ERROR ("Error processing event: " ++ exn_str (OtherError "rpc") ++ ".") w1.
Proof.
  assert (Hrun : exists w1,
             process_current_blocks (rpc_down_from 1000) 3 (world_with true (Some 10) [])
             = Raise (OtherError "rpc") w1)
    by (eexists; vm_compute; reflexivity).
  destruct Hrun as (w1 & Hrun). exists w1. split; [exact Hrun|].
  apply (proj2 (do_run_monitor_survives (rpc_down_from 1000) 3)
           (world_with true (Some 10) []) (OtherError "rpc") w1).
  - reflexivity.
  - exact Hrun.
  - reflexivity.
Defined.

Lemma process_current_blocks_bad_chunk_size_witness :
  (exists w1,
      process_current_blocks (with_chunk_size 0 quiet_env) 1 (world_with true (Some 10) [])
      = Raise ValueError w1 /\ queries w1 = []) /\
  (exists w1,
      process_current_blocks (with_chunk_size (-5) quiet_env) 1
        (world_with true (Some 10) [])
      = Raise UnboundLocalError w1 /\ queries w1 = []).
Proof.
  split.
  - assert (Hget : exists w1,
               get_last_processed_block (with_chunk_size 0 quiet_env) 1
                 (world_with true (Some 10) []) = Ret 10 w1 /\ queries w1 = [])
      by (eexists; split; vm_compute; reflexivity).
    destruct Hget as (w1 & Hget & Hq). exists w1. split; [|exact Hq].
    apply (proj1 (process_current_blocks_bad_chunk_size (with_chunk_size 0 quiet_env) 1
                    (world_with true (Some 10) []) 10 w1 (PyInt 1050) 1050
                    Hget eq_refl eq_refl eq_refl ltac:(lia))).
    reflexivity.
  - assert (Hget : exists w1,
               get_last_processed_block (with_chunk_size (-5) quiet_env) 1
                 (world_with true (Some 10) []) = Ret 10 w1 /\ queries w1 = [])
      by (eexists; split; vm_compute; reflexivity).
    destruct Hget as (w1 & Hget & Hq). exists w1. split; [|exact Hq].
    apply (proj2 (process_current_blocks_bad_chunk_size (with_chunk_size (-5) quiet_env) 1
                    (world_with true (Some 10) []) 10 w1 (PyInt 1050) 1050
                    Hget eq_refl eq_refl eq_refl ltac:(lia))).
    vm_compute. reflexivity.
Defined.

End EventsMonitorMore.

(** ** Further properties of the registry of chains *)

Module ChainRegistryMore.

Import EventsMonitor ChainRegistry Examples MoreExamples.

Section registry.

Variable es_outcome : nat -> outcome.

Lemma add_chain_id_healthy chain_id r :
  (forall n, es_outcome n = Healthy) ->
  add_chain_id_to_chains_list es_outcome chain_id r
  = (inr tt,
     {| chains_doc := Some (<[pretty chain_id := true]> (registered r));
        registry_calls := S (S (registry_calls r));
        registry_logs :=
          (registry_logs r
           ++ [Log INFO ("Added " ++ pretty chain_id ++ " to chains list")])%list |}).
Proof.
  intros Hh. unfold add_chain_id_to_chains_list, registered. rewrite !Hh.
  destruct (chains_doc r); reflexivity.
Qed.

Lemma register_all_lookup (Hh : forall n, es_outcome n = Healthy) ids : forall r key,
  registered (register_all es_outcome ids r) !! key
  = (if bool_decide (key ∈ (pretty <$> ids : list string)) then Some true
     else registered r !! key).
Proof.
  induction ids as [|chain_id ids IH]; intros r key.
  - unfold register_all. cbn [foldl]. rewrite fmap_nil.
    rewrite bool_decide_eq_false_2 by (apply not_elem_of_nil). reflexivity.
  - change (register_all es_outcome (chain_id :: ids) r)
      with (register_all es_outcome ids
              (add_chain_id_to_chains_list es_outcome chain_id r).2).
    rewrite add_chain_id_healthy by exact Hh. rewrite (IH _ key).
    rewrite fmap_cons. unfold registered at 1.
    cbn [chains_doc snd default from_option Datatypes.id].
    destruct (decide (key ∈ (pretty <$> ids : list string))) as [Hin|Hout].
    + rewrite !bool_decide_eq_true_2; [reflexivity| |exact Hin].
      apply elem_of_cons. right. exact Hin.
    + rewrite (bool_decide_eq_false_2 _ Hout).
      destruct (decide (key = pretty chain_id)) as [->|Hne].
      * rewrite lookup_insert_eq.
        rewrite bool_decide_eq_true_2 by (apply elem_of_cons; left; reflexivity).
        reflexivity.
      * rewrite lookup_insert_ne by congruence.
        rewrite bool_decide_eq_false_2; [reflexivity|].
        rewrite elem_of_cons. tauto.
Qed.

(** With a store that answers, once the monitors of the chains [ids] have
    been constructed one after the other, every one of these chains is
    registered, a chain that is not among them is registered exactly when
    it was before, and no other key of the document has changed: no
    registration is lost, whatever the order and the repetitions. *)
Theorem register_all_registers ids r :
  (forall n, es_outcome n = Healthy) ->
  (forall c, c ∈ ids ->
             registered (register_all es_outcome ids r) !! pretty c = Some true) /\
  (forall c, c ∉ ids ->
             registered (register_all es_outcome ids r) !! pretty c
             = registered r !! pretty c) /\
  (forall key : string,
      key ∉ (pretty <$> ids : list string) ->
      registered (register_all es_outcome ids r) !! key = registered r !! key).
Proof.
  intros Hh. split; [|split].
  - intros c Hin. rewrite (register_all_lookup Hh).
    rewrite bool_decide_eq_true_2; [reflexivity|].
    apply list_elem_of_fmap. exists c. split; [reflexivity|exact Hin].
  - intros c Hout. rewrite (register_all_lookup Hh).
    rewrite bool_decide_eq_false_2; [reflexivity|].
    intros Hin. apply list_elem_of_fmap in Hin as (c' & Heq & Hin).
    apply (inj pretty) in Heq. subst c'. exact (Hout Hin).
  - intros key Hout. rewrite (register_all_lookup Hh).
    rewrite (bool_decide_eq_false_2 _ Hout). reflexivity.
Qed.

(** When the document cannot be read, for whatever reason, and the write
    is then answered, the document is replaced by one that holds the
    chain of this monitor alone: the chains registered before are gone. *)
Theorem add_chain_id_failed_read_forgets chain_id r :
  es_outcome (registry_calls r) <> Healthy ->
  es_outcome (S (registry_calls r)) = Healthy ->
  exists r',
    add_chain_id_to_chains_list es_outcome chain_id r = (inr tt, r') /\
    chains_doc r' = Some {[ pretty chain_id := true ]} /\
    (forall c, c <> chain_id -> registered r' !! pretty c = None).
Proof.
  intros Hread Hwrite. unfold add_chain_id_to_chains_list. rewrite Hwrite.
  eexists. split; [reflexivity|]. cbn [chains_doc].
  assert (Hdoc : match es_outcome (registry_calls r), chains_doc r with
                 | Healthy, Some source => source
                 | _, _ => ∅
                 end = (∅ : gmap string bool)).
  { destruct (es_outcome (registry_calls r)); [congruence|reflexivity..]. }
  rewrite Hdoc. split; [reflexivity|].
  intros c Hne. unfold registered. cbn [chains_doc default from_option Datatypes.id].
  rewrite lookup_insert_ne; [apply lookup_empty|].
  intros Heq. apply (inj pretty) in Heq. congruence.
Qed.

(** A write that the store rejects with [RequestError] is logged and the
    constructor goes on; any other failure of the write is raised.  In both
    cases the document is left as it was, this chain unregistered if it
    was. *)
Theorem add_chain_id_write_fails chain_id r :
  (es_outcome (S (registry_calls r)) = Fails RequestError ->
   exists r',
     add_chain_id_to_chains_list es_outcome chain_id r = (inr tt, r') /\
     chains_doc r' = chains_doc r /\
     registry_logs r'
     = (registry_logs r
        ++ [Log ERROR ("Cannot add chain_id " ++ pretty chain_id
                       ++ " to chains list: ES RequestError")])%list) /\
  (forall e,
      es_outcome (S (registry_calls r)) = Fails e -> is_RequestError e = false ->
      exists r',
        add_chain_id_to_chains_list es_outcome chain_id r = (inl e, r') /\
        chains_doc r' = chains_doc r /\ registry_logs r' = registry_logs r) /\
  (es_outcome (S (registry_calls r)) = Unreachable ->
   exists r',
     add_chain_id_to_chains_list es_outcome chain_id r = (inl ConnectionError, r') /\
     chains_doc r' = chains_doc r /\ registry_logs r' = registry_logs r).
Proof.
  unfold add_chain_id_to_chains_list. split; [|split].
  - intros ->. eexists. split; [reflexivity|]. split; reflexivity.
  - intros e -> He. destruct e; try discriminate He;
      (eexists; split; [reflexivity|]; split; reflexivity).
  - intros ->. eexists. split; [reflexivity|]. split; reflexivity.
Qed.

End registry.

Lemma register_all_registers_witness :
  registered (register_all always_up [1; 137; 1] no_registry) !! pretty 137 = Some true /\
  registered (register_all always_up [1; 137; 1] no_registry) !! pretty 56
  = registered no_registry !! pretty 56.
Proof.
  destruct (register_all_registers always_up [1; 137; 1] no_registry
              ltac:(intros n; reflexivity)) as (Hin & Hout & _).
  split.
  - apply Hin. apply list_elem_of_In. simpl. auto.
  - apply Hout. intros H. apply list_elem_of_In in H. simpl in H.
    destruct H as [H|[H|[H|[]]]]; discriminate H.
Defined.

Lemma add_chain_id_failed_read_forgets_witness :
  exists r',
    add_chain_id_to_chains_list first_call_breaks 137
      {| chains_doc := Some {[ "1" := true ]}; registry_calls := 0; registry_logs := [] |}
    = (inr tt, r') /\
    chains_doc r' = Some {[ pretty 137 := true ]} /\
    (forall c, c <> 137 -> registered r' !! pretty c = None).
Proof.
  apply (add_chain_id_failed_read_forgets first_call_breaks 137
           {| chains_doc := Some {[ "1" := true ]}; registry_calls := 0;
              registry_logs := [] |}).
  - discriminate.
  - reflexivity.
Defined.

Lemma add_chain_id_write_fails_witness :
  exists r',
    add_chain_id_to_chains_list
      (fun n => match n with 1%nat => Fails RequestError | _ => Healthy end) 137
      {| chains_doc := Some {[ "1" := true ]}; registry_calls := 0; registry_logs := [] |}
    = (inr tt, r') /\
    chains_doc r' = Some {[ "1" := true ]} /\
    registry_logs r'
    = [Log ERROR ("Cannot add chain_id " ++ pretty 137
                  ++ " to chains list: ES RequestError")].
Proof.
  apply (proj1 (add_chain_id_write_fails
                  (fun n => match n with 1%nat => Fails RequestError | _ => Healthy end)
                  137
                  {| chains_doc := Some {[ "1" := true ]}; registry_calls := 0;
                     registry_logs := [] |})).
  reflexivity.
Defined.

End ChainRegistryMore.
